(** * BinarySpaceTree (fastlib/tree/spacetree.h)

    A shallow embedding of the generalized binary space partitioning tree
    of [src/fastlib/tree/spacetree.h] and the verification of its
    specification.

    The C++ class is a pointer structure: every node owns two raw child
    pointers, and all methods work through [this].  Nodes therefore live in
    a store ([gmap addr Node]); pointers are null, poisoned or an address;
    methods are computations in a state-and-fault monad. *)

From Stdlib Require Import ZArith String.
From stdpp Require Import base option list gmap.

Local Open Scope Z_scope.

(** ** Pointers and machine integers *)

Definition addr := positive.
Bind Scope positive_scope with addr.

(** A [BinarySpaceTree *]: [NULL], the debug poison pattern, or the address
    of a node. *)
Inductive ptr :=
| Null
| Poison
| Ref (a : addr).

Global Instance ptr_eq_dec : EqDecision ptr.
Proof. solve_decision. Defined.

(** [!p] for a pointer [p]: only [NULL] converts to false. *)
Definition is_null (p : ptr) : bool :=
  match p with Null => true | _ => false end.

(** [index_t] is a 32-bit [int] ([Print] formats it with [%d]); values are
    kept in [Z] and [+] wraps around. *)
Definition index_t := Z.

Definition wrap_index (z : Z) : index_t :=
  (z + 2 ^ 31) mod 2 ^ 32 - 2 ^ 31.

Definition index_add (a b : index_t) : index_t := wrap_index (a + b).

(** ** The serialization stream *)

(** Modelled from the spec: the Serializer and Deserializer capabilities of
    [file/serialize.h], which is not among the sources.  The sink offers
    [put(value)] and [putTag(tag)], the source [get()] and [assertTag(tag)];
    the byte-level encoding is out of scope, so a stream is the sequence of
    the values put. *)
Inductive item :=
| IInt (z : Z)
| IBool (b : bool)
| IMagic (m : Z).

Global Instance item_eq_dec : EqDecision item.
Proof. solve_decision. Defined.

(** ** Capabilities supplied by the caller (template parameters) *)

(** [TBound]: default-constructible, [Serialize(s)] and [Deserialize(s)],
    and its [MAGIC_NUMBER]. *)
Class BoundOps (Bound : Type) := {
  Bound_default : Bound;
  Bound_MAGIC_NUMBER : Z;
  Bound_Serialize : Bound → list item;
  Bound_Deserialize : list item → option (Bound * list item);
}.

(** [TDataset]: [Serialize(s)] and [Deserialize(s)], and its
    [MAGIC_NUMBER]. *)
Class DatasetOps (Dataset : Type) := {
  Dataset_MAGIC_NUMBER : Z;
  Dataset_Serialize : Dataset → list item;
  Dataset_Deserialize : list item → option (Dataset * list item);
}.

(** [TStatistic]: default-constructible, with the two [Init] overloads:
    from the node's own range (leaves) and from the children's statistics
    (internal nodes). *)
Class StatisticOps (Dataset Statistic : Type) := {
  Statistic_default : Statistic;
  Statistic_Init : Dataset → index_t → index_t → Statistic;
  Statistic_Init_children :
    Dataset → index_t → index_t → Statistic → Statistic → Statistic;
}.

(** What a decoder owes its encoder: reading back what was written, and
    leaving the rest of the stream alone. *)
Class BoundRoundTrip (Bound : Type) `{BoundOps Bound} :=
  bound_round_trip : ∀ (b : Bound) (rest : list item),
    Bound_Deserialize (Bound_Serialize b ++ rest) = Some (b, rest).

Class DatasetRoundTrip (Dataset : Type) `{DatasetOps Dataset} :=
  dataset_round_trip : ∀ (d : Dataset) (rest : list item),
    Dataset_Deserialize (Dataset_Serialize d ++ rest) = Some (d, rest).

(** ** Build mode and platform constants

    Taken as parameters, being declared outside the sources ([base/cc.h],
    [file/serialize.h]): whether this is a debug build, the poison number
    [BIG_BAD_NUMBER], [file::CreateMagic], and whatever uninitialised
    storage holds in a build that does not poison it. *)
Class Platform := {
  debug : bool;
  BIG_BAD_NUMBER : index_t;
  CreateMagic : string → Z;
  junk_index : index_t;
  junk_ptr : ptr;
}.

(** ** Faults *)

Inductive fault :=
| AssertionFailed      (* a DEBUG_ASSERT failed in a debug build: abort *)
| MagicMismatch        (* AssertMagic found another format tag *)
| UndefinedBehaviour   (* dereference of a null, poisoned or dangling
                          pointer *)
| StreamError          (* the stream does not hold the value read from it *)
| OutOfFuel.           (* recursion deeper than the fuel supplied *)

Inductive result (A : Type) :=
| Done (a : A)
| Fault (f : fault).
Global Arguments Done {A} a.
Global Arguments Fault {A} f.

Section BinarySpaceTree.

Context {Bound Dataset Statistic : Type}.
Context {BO : BoundOps Bound} {DO : DatasetOps Dataset}.
Context {SO : StatisticOps Dataset Statistic} {PF : Platform}.

(** The data members of [class BinarySpaceTree], in declaration order. *)
Record Node := mkNode {
  bound_ : Bound;
  left_ : ptr;
  right_ : ptr;
  begin_ : index_t;
  count_ : index_t;
  stat_ : Statistic;
}.

Definition set_bound_ (v : Bound) (n : Node) : Node :=
  mkNode v (left_ n) (right_ n) (begin_ n) (count_ n) (stat_ n).
Definition set_left_ (v : ptr) (n : Node) : Node :=
  mkNode (bound_ n) v (right_ n) (begin_ n) (count_ n) (stat_ n).
Definition set_right_ (v : ptr) (n : Node) : Node :=
  mkNode (bound_ n) (left_ n) v (begin_ n) (count_ n) (stat_ n).
Definition set_begin_ (v : index_t) (n : Node) : Node :=
  mkNode (bound_ n) (left_ n) (right_ n) v (count_ n) (stat_ n).
Definition set_count_ (v : index_t) (n : Node) : Node :=
  mkNode (bound_ n) (left_ n) (right_ n) (begin_ n) v (stat_ n).
Definition set_stat_ (v : Statistic) (n : Node) : Node :=
  mkNode (bound_ n) (left_ n) (right_ n) (begin_ n) (count_ n) v.

(** The machine state a method can see: the nodes on the heap, the
    serializer's output so far, the deserializer's remaining input. *)
Record State := mkState {
  heap : gmap addr Node;
  sink : list item;
  source : list item;
}.

Definition set_heap (f : gmap addr Node → gmap addr Node) (σ : State) : State :=
  mkState (f (heap σ)) (sink σ) (source σ).
Definition set_sink (f : list item → list item) (σ : State) : State :=
  mkState (heap σ) (f (sink σ)) (source σ).
Definition set_source (s : list item) (σ : State) : State :=
  mkState (heap σ) (sink σ) s.

(** ** The monad: state passing, stopping at the first fault.  A fault
    keeps the state it was raised in. *)
Definition M (A : Type) : Type := State → result A * State.

Definition ret {A} (a : A) : M A := λ σ, (Done a, σ).
Definition raise {A} (f : fault) : M A := λ σ, (Fault f, σ).
Definition bind {A B} (m : M A) (k : A → M B) : M B :=
  λ σ, match m σ with
       | (Done a, σ') => k a σ'
       | (Fault f, σ') => (Fault f, σ')
       end.

Local Notation "x <- m ;; k" := (bind m (λ x, k))
  (at level 100, m at next level, right associativity).
Local Notation "m ;; k" := (bind m (λ _, k))
  (at level 100, right associativity).

(** Field access through a [this] pointer. *)
Definition load (this : addr) : M Node :=
  λ σ, match heap σ !! this with
       | Some n => (Done n, σ)
       | None => (Fault UndefinedBehaviour, σ)
       end.

Definition modify (this : addr) (f : Node → Node) : M unit :=
  λ σ, match heap σ !! this with
       | Some n => (Done tt, set_heap <[this := f n]> σ)
       | None => (Fault UndefinedBehaviour, σ)
       end.

(** [p->...]: the pointer has to point to a node. *)
Definition deref (p : ptr) : M addr :=
  match p with
  | Ref a => n <- load a ;; ret a
  | _ => raise UndefinedBehaviour
  end.

Definition load_ptr (p : ptr) : M Node :=
  a <- deref p ;; load a.

(** Modelled from the spec: [Put] and [PutMagic] of the Serializer
    ("put(value); putTag(tag)"): the value is appended to the output. *)
Definition Put (i : item) : M unit :=
  λ σ, (Done tt, set_sink (λ s, s ++ [i]) σ).

Definition PutMagic (m : Z) : M unit := Put (IMagic m).

(** [bound_.Serialize(s)] and [data.Serialize(s)]: the capability writes
    its own encoding to the sink. *)
Definition Put_items (l : list item) : M unit :=
  λ σ, (Done tt, set_sink (λ s, s ++ l) σ).

(** [bound_.Deserialize(s)] and [data->Deserialize(s)]: the capability
    reads its own encoding from the source. *)
Definition Get_with {A} (decode : list item → option (A * list item)) : M A :=
  λ σ, match decode (source σ) with
       | Some (a, s) => (Done a, set_source s σ)
       | None => (Fault StreamError, σ)
       end.

(** Modelled from the spec: [Get] of the Deserializer ("get() → value"),
    at type [index_t] and at type [bool]: the next value of the input, which
    has to be of that type. *)
Definition Get_index : M index_t :=
  λ σ, match source σ with
       | IInt z :: s => (Done z, set_source s σ)
       | _ => (Fault StreamError, σ)
       end.

Definition Get_bool : M bool :=
  λ σ, match source σ with
       | IBool b :: s => (Done b, set_source s σ)
       | _ => (Fault StreamError, σ)
       end.

(** Modelled from the spec: [AssertMagic] of [file/serialize.h] (absent):
    "assertTag(tag) fails with a format-mismatch error if the stored tag
    differs".  The tag is consumed, then compared. *)
Definition AssertMagic (expected : Z) : M unit :=
  λ σ, match source σ with
       | IMagic m :: s =>
           if m =? expected then (Done tt, set_source s σ)
           else (Fault MagicMismatch, set_source s σ)
       | _ => (Fault StreamError, σ)
       end.

(** ** Debug macros *)

(** Modelled from the spec: the macros [DEBUG_ASSERT], [DEBUG_ONLY] and
    [DEBUG_POISON_PTR] of [base/cc.h] (absent).  "Debug-only poisoning of
    uninitialized fields and assertion-based invariant checks map to
    build-mode-gated contract checks": in a debug build [DEBUG_ASSERT]
    aborts on a false condition, [DEBUG_ONLY] runs its argument and
    [DEBUG_POISON_PTR] overwrites the pointer with the poison pattern; in
    other builds all three expand to nothing. *)
Definition DEBUG_ASSERT (cond : M bool) : M unit :=
  if debug then
    b <- cond ;; if b : bool then ret tt else raise AssertionFailed
  else ret tt.

Definition DEBUG_ONLY (m : M unit) : M unit :=
  if debug then m else ret tt.

Definition DEBUG_POISON_PTR (this : addr) (set : ptr → Node → Node) : M unit :=
  DEBUG_ONLY (modify this (set Poison)).

(** ** Construction *)

(** [BinarySpaceTree()], run on fresh storage: the members of class type
    are default-constructed, the scalars are poisoned in debug builds and
    left as they are otherwise. *)
Definition BinarySpaceTree_ctor : Node :=
  {| bound_ := Bound_default;
     left_ := if debug then Poison else junk_ptr;
     right_ := if debug then Poison else junk_ptr;
     begin_ := if debug then BIG_BAD_NUMBER else junk_index;
     count_ := if debug then BIG_BAD_NUMBER else junk_index;
     stat_ := Statistic_default |}.

(** [new BinarySpaceTree()]. *)
Definition new_BinarySpaceTree : M addr :=
  λ σ, let a := fresh (dom (heap σ)) in
       (Done a, set_heap <[a := BinarySpaceTree_ctor]> σ).

(** [void Init(index_t begin_in, index_t count_in)]. *)
Definition Init (this : addr) (begin_in count_in : index_t) : M unit :=
  DEBUG_ASSERT (n <- load this ;; ret (begin_ n =? BIG_BAD_NUMBER)) ;;
  DEBUG_POISON_PTR this set_left_ ;;
  DEBUG_POISON_PTR this set_right_ ;;
  modify this (set_begin_ begin_in) ;;
  modify this (set_count_ count_in).

(** ** Accessors *)

Definition is_leaf (n : Node) : bool := is_null (left_ n).

Definition left (n : Node) : ptr := left_ n.
Definition right (n : Node) : ptr := right_ n.
Definition begin (n : Node) : index_t := begin_ n.
Definition end_ (n : Node) : index_t := index_add (begin_ n) (count_ n).
Definition count (n : Node) : index_t := count_ n.
Definition bound (n : Node) : Bound := bound_ n.
Definition stat (n : Node) : Statistic := stat_ n.

(** ** Lookup by range *)

(** [const BinarySpaceTree* FindByBeginCount(begin_q, count_q) const]. *)
Fixpoint FindByBeginCount_const (fuel : nat) (this : addr)
    (begin_q count_q : index_t) : M ptr :=
  match fuel with
  | O => raise OutOfFuel
  | S fuel' =>
      DEBUG_ASSERT (n <- load this ;; ret (begin_q >=? begin_ n)) ;;
      DEBUG_ASSERT (n <- load this ;; ret (count_q <=? count_ n)) ;;
      n <- load this ;;
      if (begin_ n =? begin_q) && (count_ n =? count_q) then
        ret (Ref this)
      else if is_leaf n then
        ret Null
      else
        rn <- load_ptr (right_ n) ;;
        if begin_q <? begin_ rn then
          l <- deref (left_ n) ;;
          FindByBeginCount_const fuel' l begin_q count_q
        else
          r <- deref (right_ n) ;;
          FindByBeginCount_const fuel' r begin_q count_q
  end.

(** [BinarySpaceTree* FindByBeginCount(begin_q, count_q)], the mutable
    overload. *)
Fixpoint FindByBeginCount (fuel : nat) (this : addr)
    (begin_q count_q : index_t) : M ptr :=
  match fuel with
  | O => raise OutOfFuel
  | S fuel' =>
      DEBUG_ASSERT (n <- load this ;; ret (begin_q >=? begin_ n)) ;;
      DEBUG_ASSERT (n <- load this ;; ret (count_q <=? count_ n)) ;;
      n <- load this ;;
      if (begin_ n =? begin_q) && (count_ n =? count_q) then
        ret (Ref this)
      else if is_leaf n then
        ret Null
      else
        rn <- load_ptr (right_ n) ;;
        if begin_q <? begin_ rn then
          l <- deref (left_ n) ;;
          FindByBeginCount fuel' l begin_q count_q
        else
          r <- deref (right_ n) ;;
          FindByBeginCount fuel' r begin_q count_q
  end.

(** One level of [FindByBeginCount] with the macros expanded: what the
    body does at [this], given what the recursive calls do. *)
Definition find_step (rec : addr → index_t → index_t → M ptr)
    (this : addr) (begin_q count_q : index_t) : M ptr :=
  λ σ,
  match heap σ !! this with
  | None => (Fault UndefinedBehaviour, σ)
  | Some n =>
      if debug && negb (begin_q >=? begin_ n) then (Fault AssertionFailed, σ)
      else if debug && negb (count_q <=? count_ n) then
        (Fault AssertionFailed, σ)
      else if (begin_ n =? begin_q) && (count_ n =? count_q) then
        (Done (Ref this), σ)
      else if is_leaf n then (Done Null, σ)
      else
        match right_ n with
        | Ref r =>
            match heap σ !! r with
            | Some rn =>
                if begin_q <? begin_ rn then
                  match left_ n with
                  | Ref l =>
                      match heap σ !! l with
                      | Some _ => rec l begin_q count_q σ
                      | None => (Fault UndefinedBehaviour, σ)
                      end
                  | _ => (Fault UndefinedBehaviour, σ)
                  end
                else rec r begin_q count_q σ
            | None => (Fault UndefinedBehaviour, σ)
            end
        | _ => (Fault UndefinedBehaviour, σ)
        end
  end.

(** ** Attaching children *)

(** The three conditions [set_children] asserts of an internal node [n]
    with children [ln] and [rn]. *)
Definition contiguous (n ln rn : Node) : bool :=
  (count_ n =? index_add (count_ ln) (count_ rn)) &&
  (begin_ ln =? begin_ n) &&
  (begin_ rn =? index_add (begin_ n) (count_ ln)).

(** [void set_children(const Dataset& data, left_in, right_in)].  The
    statistic is initialised before the assertions are evaluated.  The two
    statistics [left_->stat_] and [right_->stat_] are handed to [Init] by
    reference and are taken here as the values [Init] computes from, so
    both child pointers have to point to nodes; what a build does with a
    reference formed through another pointer is left undefined. *)
Definition set_children (data : Dataset) (this : addr)
    (left_in right_in : ptr) : M unit :=
  modify this (set_left_ left_in) ;;
  modify this (set_right_ right_in) ;;
  n <- load this ;;
  if negb (is_leaf n) then
    ln <- load_ptr (left_ n) ;;
    rn <- load_ptr (right_ n) ;;
    modify this (set_stat_
      (Statistic_Init_children data (begin_ n) (count_ n)
         (stat_ ln) (stat_ rn))) ;;
    DEBUG_ASSERT (n <- load this ;; ln <- load_ptr (left_ n) ;;
                  rn <- load_ptr (right_ n) ;;
                  ret (count_ n =? index_add (count_ ln) (count_ rn))) ;;
    DEBUG_ASSERT (n <- load this ;; ln <- load_ptr (left_ n) ;;
                  ret (begin_ ln =? begin_ n)) ;;
    DEBUG_ASSERT (n <- load this ;; ln <- load_ptr (left_ n) ;;
                  rn <- load_ptr (right_ n) ;;
                  ret (begin_ rn =? index_add (begin_ n) (count_ ln)))
  else
    modify this (set_stat_ (Statistic_Init data (begin_ n) (count_ n))).

(** ** Structural serialization *)

(** [void Serialize(Serializer *s) const]. *)
Fixpoint Serialize (fuel : nat) (this : addr) : M unit :=
  match fuel with
  | O => raise OutOfFuel
  | S fuel' =>
      n <- load this ;;
      Put_items (Bound_Serialize (bound_ n)) ;;
      Put (IInt (begin_ n)) ;;
      Put (IInt (count_ n)) ;;
      let children := negb (is_leaf n) in
      Put (IBool children) ;;
      if children then
        l <- deref (left_ n) ;;
        Serialize fuel' l ;;
        r <- deref (right_ n) ;;
        Serialize fuel' r
      else ret tt
  end.

(** [void Deserialize(const Dataset& data, Deserializer *s)]. *)
Fixpoint Deserialize (fuel : nat) (data : Dataset) (this : addr) : M unit :=
  match fuel with
  | O => raise OutOfFuel
  | S fuel' =>
      DEBUG_ASSERT (n <- load this ;; ret (begin_ n =? BIG_BAD_NUMBER)) ;;
      b <- Get_with Bound_Deserialize ;;
      modify this (set_bound_ b) ;;
      bg <- Get_index ;;
      modify this (set_begin_ bg) ;;
      ct <- Get_index ;;
      modify this (set_count_ ct) ;;
      children <- Get_bool ;;
      lr <- (if children : bool then
               l <- new_BinarySpaceTree ;;
               Deserialize fuel' data l ;;
               r <- new_BinarySpaceTree ;;
               Deserialize fuel' data r ;;
               ret (Ref l, Ref r)
             else ret (Null, Null)) ;;
      set_children data this (fst lr) (snd lr)
  end.

(** ** Whole-tree envelope *)

(** [file::CreateMagic("spacetree") + MAGIC_NUMBER(TDataset)
    + MAGIC_NUMBER(TBound)]; magic numbers are 32-bit unsigned. *)
Definition spacetree_magic : Z :=
  (CreateMagic "spacetree" + Dataset_MAGIC_NUMBER (Dataset := Dataset)
     + Bound_MAGIC_NUMBER (Bound := Bound)) mod 2 ^ 32.

(** [void SerializeAll(const Dataset& data, Serializer *s) const]. *)
Definition SerializeAll (fuel : nat) (data : Dataset) (this : addr) : M unit :=
  PutMagic spacetree_magic ;;
  Put_items (Dataset_Serialize data) ;;
  Serialize fuel this.

(** [void DeserializeAll(Dataset* data, Deserializer *s)]; the result is
    the value left in [*data]. *)
Definition DeserializeAll (fuel : nat) (this : addr) : M Dataset :=
  AssertMagic spacetree_magic ;;
  data <- Get_with Dataset_Deserialize ;;
  Deserialize fuel data this ;;
  ret data.

(** ** Trees on the heap

    A fully constructed tree, read off the heap: every node carries its
    bound, range and statistic; a leaf has both child pointers null, an
    internal node has both pointing to subtrees. *)
Inductive tree :=
| TLeaf (b : Bound) (bg ct : index_t) (st : Statistic)
| TNode (b : Bound) (bg ct : index_t) (st : Statistic) (l r : tree).

Definition t_bound (t : tree) : Bound :=
  match t with TLeaf b _ _ _ | TNode b _ _ _ _ _ => b end.
Definition t_begin (t : tree) : index_t :=
  match t with TLeaf _ bg _ _ | TNode _ bg _ _ _ _ => bg end.
Definition t_count (t : tree) : index_t :=
  match t with TLeaf _ _ ct _ | TNode _ _ ct _ _ _ => ct end.
Definition t_stat (t : tree) : Statistic :=
  match t with TLeaf _ _ _ st | TNode _ _ _ st _ _ => st end.

Fixpoint height (t : tree) : nat :=
  match t with
  | TLeaf _ _ _ _ => 1
  | TNode _ _ _ _ l r => S (Nat.max (height l) (height r))
  end.

(** The [(begin, count)] pairs of all nodes. *)
Fixpoint ranges (t : tree) : list (index_t * index_t) :=
  match t with
  | TLeaf _ bg ct _ => [(bg, ct)]
  | TNode _ bg ct _ l r => (bg, ct) :: ranges l ++ ranges r
  end.

(** [tree_at D h p t]: in heap [h] the node at [p] roots the tree [t], all
    of whose nodes are stored at addresses in [D]. *)
Fixpoint tree_at (D : gset addr) (h : gmap addr Node) (p : addr) (t : tree)
    : Prop :=
  match t with
  | TLeaf b bg ct st =>
      p ∈ D ∧ h !! p = Some (mkNode b Null Null bg ct st)
  | TNode b bg ct st l r =>
      p ∈ D ∧ ∃ pl pr : addr,
        h !! p = Some (mkNode b (Ref pl) (Ref pr) bg ct st) ∧
        tree_at D h pl l ∧ tree_at D h pr r
  end.

(** The same without a region. *)
Fixpoint repr (h : gmap addr Node) (p : addr) (t : tree) : Prop :=
  match t with
  | TLeaf b bg ct st =>
      h !! p = Some (mkNode b Null Null bg ct st)
  | TNode b bg ct st l r =>
      ∃ pl pr : addr,
        h !! p = Some (mkNode b (Ref pl) (Ref pr) bg ct st) ∧
        repr h pl l ∧ repr h pr r
  end.

(** The nodes of the structure rooted at [p]: [p] itself and whatever the
    child pointers lead to. *)
Inductive reach (h : gmap addr Node) : addr → addr → Prop :=
| reach_here p : reach h p p
| reach_left p n l q :
    h !! p = Some n → left_ n = Ref l → reach h l q → reach h p q
| reach_right p n r q :
    h !! p = Some n → right_ n = Ref r → reach h r q → reach h p q.

(** The contiguity invariants of an internal node, as [set_children]
    asserts them, for every internal node. *)
Fixpoint valid (t : tree) : bool :=
  match t with
  | TLeaf _ _ _ _ => true
  | TNode _ bg ct _ l r =>
      (ct =? index_add (t_count l) (t_count r)) &&
      (t_begin l =? bg) &&
      (t_begin r =? index_add bg (t_count l)) &&
      valid l && valid r
  end.

(** The structural stream of the spec: per node [bound], [begin], [count],
    the has-children flag and, when it is set, the left subtree followed by
    the right one.  No statistic. *)
Fixpoint encode (t : tree) : list item :=
  match t with
  | TLeaf b bg ct _ =>
      Bound_Serialize b ++ [IInt bg; IInt ct; IBool false]
  | TNode b bg ct _ l r =>
      Bound_Serialize b ++ [IInt bg; IInt ct; IBool true]
        ++ encode l ++ encode r
  end.

(** The same tree with every statistic recomputed bottom-up from the
    dataset: leaves by the range form, internal nodes by the children form
    of the recomputed children. *)
Fixpoint rebuild (data : Dataset) (t : tree) : tree :=
  match t with
  | TLeaf b bg ct _ => TLeaf b bg ct (Statistic_Init data bg ct)
  | TNode b bg ct _ l r =>
      let l' := rebuild data l in
      let r' := rebuild data r in
      TNode b bg ct
        (Statistic_Init_children data bg ct (t_stat l') (t_stat r')) l' r'
  end.

(** The nodes [FindByBeginCount] visits for a query that matches none of
    them: one decision per level, down to a leaf. *)
Fixpoint descent (t : tree) (begin_q : index_t) : list tree :=
  t :: match t with
       | TLeaf _ _ _ _ => []
       | TNode _ _ _ _ l r =>
           if begin_q <? t_begin r then descent l begin_q
           else descent r begin_q
       end.

(** The precondition of [FindByBeginCount] at one node. *)
Definition fits (begin_q count_q : index_t) (t : tree) : bool :=
  (begin_q >=? t_begin t) && (count_q <=? t_count t).

(** Two trees with the same bounds, ranges and children structure,
    whatever their statistics. *)
Fixpoint same_structure (t t' : tree) : Prop :=
  match t, t' with
  | TLeaf b bg ct _, TLeaf b' bg' ct' _ => b = b' ∧ bg = bg' ∧ ct = ct'
  | TNode b bg ct _ l r, TNode b' bg' ct' _ l' r' =>
      b = b' ∧ bg = bg' ∧ ct = ct' ∧
      same_structure l l' ∧ same_structure r r'
  | _, _ => False
  end.

Definition t_is_leaf (t : tree) : bool :=
  match t with TLeaf _ _ _ _ => true | TNode _ _ _ _ _ _ => false end.

(** A child pointer is present when it is not null. *)
Definition present (p : ptr) : bool := negb (is_null p).

(** ** Destruction *)

(** Giving back the storage of a node, the last step of [delete p]; giving
    back what is not allocated is undefined. *)
Definition free (a : addr) : M unit :=
  λ σ, match heap σ !! a with
       | Some _ => (Done tt, set_heap (delete a) σ)
       | None => (Fault UndefinedBehaviour, σ)
       end.

(** [~BinarySpaceTree()].  [delete p] does nothing for a null pointer and
    otherwise runs the destructor of [*p] and gives its storage back;
    [left_] and [right_] are read from the node one after the other. *)
Fixpoint BinarySpaceTree_dtor (fuel : nat) (this : addr) : M unit :=
  match fuel with
  | O => raise OutOfFuel
  | S fuel' =>
      let delete_ptr (p : ptr) : M unit :=
        match p with
        | Null => ret tt
        | Poison => raise UndefinedBehaviour
        | Ref a => BinarySpaceTree_dtor fuel' a ;; free a
        end in
      n <- load this ;;
      (if negb (is_leaf n) then
         delete_ptr (left_ n) ;;
         n' <- load this ;;
         delete_ptr (right_ n')
       else ret tt) ;;
      DEBUG_ONLY (modify this (set_begin_ BIG_BAD_NUMBER)) ;;
      DEBUG_ONLY (modify this (set_count_ BIG_BAD_NUMBER)) ;;
      DEBUG_POISON_PTR this set_left_ ;;
      DEBUG_POISON_PTR this set_right_
  end.

(** [delete p] for a [BinarySpaceTree *p]. *)
Definition delete_BinarySpaceTree (fuel : nat) (p : ptr) : M unit :=
  match p with
  | Null => ret tt
  | Poison => raise UndefinedBehaviour
  | Ref a => BinarySpaceTree_dtor fuel a ;; free a
  end.

(** What the destructor leaves in the storage of the node destroyed: in a
    debug build the two numbers and the two pointers are poisoned. *)
Definition destroyed (n : Node) : Node :=
  if debug then
    mkNode (bound_ n) Poison Poison BIG_BAD_NUMBER BIG_BAD_NUMBER (stat_ n)
  else n.

(** ** Diagnostic dump *)

(** The three integers one [printf] of [Print] formats with
    ["node: %d to %d: %d points total\n"]: [begin_], [begin_ + count_ - 1]
    and [count_]. *)
Definition print_args (bg ct : index_t) : index_t * index_t * index_t :=
  (bg, index_add (index_add bg ct) (-1), ct).

(** [void Print() const]; the result is the sequence of the [printf]
    calls made, each given by its three integers. *)
Fixpoint Print (fuel : nat) (this : addr)
    : M (list (index_t * index_t * index_t)) :=
  match fuel with
  | O => raise OutOfFuel
  | S fuel' =>
      n <- load this ;;
      let line := print_args (begin_ n) (count_ n) in
      if negb (is_leaf n) then
        l <- deref (left_ n) ;;
        ls <- Print fuel' l ;;
        r <- deref (right_ n) ;;
        rs <- Print fuel' r ;;
        ret (line :: ls ++ rs)
      else ret [line]
  end.

(** ** Ownership and ranges *)

(** [owns h p t F]: in heap [h] the node at [p] roots the tree [t], whose
    nodes are stored at the addresses [F], each node at an address of its
    own: no node is shared between two subtrees. *)
Fixpoint owns (h : gmap addr Node) (p : addr) (t : tree) (F : gset addr)
    : Prop :=
  match t with
  | TLeaf b bg ct st =>
      h !! p = Some (mkNode b Null Null bg ct st) ∧ F = {[p]}
  | TNode b bg ct st l r =>
      ∃ (pl pr : addr) (Fl Fr : gset addr),
        h !! p = Some (mkNode b (Ref pl) (Ref pr) bg ct st) ∧
        owns h pl l Fl ∧ owns h pr r Fr ∧
        (p ∉ Fl) ∧ (p ∉ Fr) ∧ Fl ## Fr ∧ F = {[p]} ∪ Fl ∪ Fr
  end.

(** A range as it occurs over a dataset: it starts at a non-negative
    index, holds at least one point, and its end is representable. *)
Definition in_range (bg ct : index_t) : bool :=
  (0 <=? bg) && (1 <=? ct) && (bg + ct <? 2 ^ 31).

Fixpoint ranged (t : tree) : bool :=
  match t with
  | TLeaf _ bg ct _ => in_range bg ct
  | TNode _ bg ct _ l r => in_range bg ct && ranged l && ranged r
  end.

(** The contiguity conditions of [set_children] on the ranges alone. *)
Definition contiguous_ranges (bg ct lbg lct rbg rct : index_t) : bool :=
  (ct =? index_add lct rct) && (lbg =? bg) && (rbg =? index_add bg lct).

End BinarySpaceTree.

Global Arguments Node : clear implicits.
Global Arguments State : clear implicits.
Global Arguments tree : clear implicits.
Global Arguments M : clear implicits.

Notation "x <- m ;; k" := (bind m (λ x, k))
  (at level 100, m at next level, right associativity).
Notation "m ;; k" := (bind m (λ _, k))
  (at level 100, right associativity).

(** Computations unfold once they are given a state. *)
Global Arguments set_bound_ {_ _} v n /.
Global Arguments set_left_ {_ _} v n /.
Global Arguments set_right_ {_ _} v n /.
Global Arguments set_begin_ {_ _} v n /.
Global Arguments set_count_ {_ _} v n /.
Global Arguments set_stat_ {_ _} v n /.
Global Arguments set_heap {_ _} f σ /.
Global Arguments set_sink {_ _} f σ /.
Global Arguments set_source {_ _} s σ /.
Global Arguments ret {_ _ _} a σ /.
Global Arguments raise {_ _ _} f σ /.
Global Arguments bind {_ _ _ _} m k σ /.
Global Arguments load {_ _} this σ /.
Global Arguments modify {_ _} this f σ /.
Global Arguments deref {_ _} !p σ /.
Global Arguments load_ptr {_ _} p σ /.
Global Arguments Put {_ _} i σ /.
Global Arguments PutMagic {_ _} m σ /.
Global Arguments Put_items {_ _} l σ /.
Global Arguments Get_with {_ _ _} decode σ /.
Global Arguments Get_index {_ _} σ /.
Global Arguments Get_bool {_ _} σ /.
Global Arguments AssertMagic {_ _} expected σ /.
Global Arguments new_BinarySpaceTree {_ _ _ _ _ _} σ /.
Global Arguments set_children : simpl never.
Global Arguments free {_ _} a σ /.
Global Arguments delete_BinarySpaceTree {_ _ _} fuel !p σ /.

(** ** Reloading with another statistic *)

Section OtherStatistic.

Context {Bound Dataset Statistic Statistic' : Type}.
Context {SO' : StatisticOps Dataset Statistic'}.

(** The tree [t], which carries statistics of one type, with statistics of
    another type recomputed bottom-up from the dataset. *)
Fixpoint restat (data : Dataset) (t : tree Bound Statistic)
    : tree Bound Statistic' :=
  match t with
  | TLeaf b bg ct _ => TLeaf b bg ct (Statistic_Init data bg ct)
  | TNode b bg ct _ l r =>
      let l' := restat data l in
      let r' := restat data r in
      TNode b bg ct
        (Statistic_Init_children data bg ct (t_stat l') (t_stat r')) l' r'
  end.

End OtherStatistic.

(** ** A concrete instantiation

    One-dimensional data: the dataset is a sequence of integers, a bound is
    the interval spanned by a node's points, the statistic is the sum of a
    node's points.  The tree is the one of the specification's example:
    eight points, split in halves down to single points. *)
Module Sample.

Definition Interval : Type := Z * Z.

Definition Interval_Deserialize (s : list item) : option (Interval * list item) :=
  match s with
  | IInt lo :: IInt hi :: s' => Some ((lo, hi), s')
  | _ => None
  end.

Global Instance Interval_ops : BoundOps Interval := {|
  Bound_default := (0, 0);
  Bound_MAGIC_NUMBER := 11;
  Bound_Serialize := λ b, [IInt (fst b); IInt (snd b)];
  Bound_Deserialize := Interval_Deserialize;
|}.

Definition Points : Type := list Z.

Fixpoint get_points (n : nat) (s : list item) : option (Points * list item) :=
  match n with
  | O => Some ([], s)
  | S n' =>
      match s with
      | IInt x :: s' =>
          match get_points n' s' with
          | Some (xs, rest) => Some (x :: xs, rest)
          | None => None
          end
      | _ => None
      end
  end.

Definition Points_Deserialize (s : list item) : option (Points * list item) :=
  match s with
  | IInt n :: s' => get_points (Z.to_nat n) s'
  | _ => None
  end.

Global Instance Points_ops : DatasetOps Points := {|
  Dataset_MAGIC_NUMBER := 7;
  Dataset_Serialize := λ d, IInt (Z.of_nat (length d)) :: map IInt d;
  Dataset_Deserialize := Points_Deserialize;
|}.

Definition range_sum (d : Points) (bg ct : index_t) : Z :=
  foldr Z.add 0 (take (Z.to_nat ct) (drop (Z.to_nat bg) d)).

Global Instance Sum_ops : StatisticOps Points Z := {|
  Statistic_default := 0;
  Statistic_Init := range_sum;
  Statistic_Init_children := λ _ _ _ l r, l + r;
|}.

Definition debug_build : Platform := {|
  debug := true;
  BIG_BAD_NUMBER := 2146666666;
  CreateMagic := λ s, Z.of_nat (String.length s);
  junk_index := 12345;
  junk_ptr := Ref 999;
|}.

Definition release_build : Platform := {|
  debug := false;
  BIG_BAD_NUMBER := 2146666666;
  CreateMagic := λ s, Z.of_nat (String.length s);
  junk_index := 12345;
  junk_ptr := Ref 999;
|}.

Definition points : Points := [3; 1; 4; 1; 5; 9; 2; 6].

Definition leaf (bg : index_t) : Node Interval Z :=
  mkNode (bg, bg + 1) Null Null bg 1 (range_sum points bg 1).

Definition inner (l r : addr) (bg ct : index_t) : Node Interval Z :=
  mkNode (bg, bg + ct) (Ref l) (Ref r) bg ct (range_sum points bg ct).

(** root(0,8) at address 1; its halves at 2 and 3; the quarters at 4..7;
    the single points at 8..15. *)
Definition heap8 : gmap addr (Node Interval Z) :=
  list_to_map
    [ (1%positive, inner 2 3 0 8);
      (2%positive, inner 4 5 0 4); (3%positive, inner 6 7 4 4);
      (4%positive, inner 8 9 0 2); (5%positive, inner 10 11 2 2);
      (6%positive, inner 12 13 4 2); (7%positive, inner 14 15 6 2);
      (8%positive, leaf 0); (9%positive, leaf 1);
      (10%positive, leaf 2); (11%positive, leaf 3);
      (12%positive, leaf 4); (13%positive, leaf 5);
      (14%positive, leaf 6); (15%positive, leaf 7) ].

Definition tleaf (bg : index_t) : tree Interval Z :=
  TLeaf (bg, bg + 1) bg 1 (range_sum points bg 1).

Definition tinner (bg ct : index_t) (l r : tree Interval Z) : tree Interval Z :=
  TNode (bg, bg + ct) bg ct (range_sum points bg ct) l r.

Definition tree8 : tree Interval Z :=
  tinner 0 8
    (tinner 0 4 (tinner 0 2 (tleaf 0) (tleaf 1))
                (tinner 2 2 (tleaf 2) (tleaf 3)))
    (tinner 4 4 (tinner 4 2 (tleaf 4) (tleaf 5))
                (tinner 6 2 (tleaf 6) (tleaf 7))).

(** A small tree: root(0,8) at 1 with the leaves (0,4) at 2 and (4,4) at 3. *)
Definition heap3 : gmap addr (Node Interval Z) :=
  list_to_map
    [ (1%positive, inner 2 3 0 8);
      (2%positive, mkNode (0, 4) Null Null 0 4 (range_sum points 0 4));
      (3%positive, mkNode (4, 8) Null Null 4 4 (range_sum points 4 4)) ].

Definition tree3 : tree Interval Z :=
  tinner 0 8 (TLeaf (0, 4) 0 4 (range_sum points 0 4))
             (TLeaf (4, 8) 4 4 (range_sum points 4 4)).

Definition state_of (h : gmap addr (Node Interval Z)) : State Interval Z :=
  mkState h [] [].

(** A statistic without payload, as the default [EmptyStatistic] is. *)
Definition Empty_ops : StatisticOps Points unit := {|
  Statistic_default := tt;
  Statistic_Init := λ _ _ _, tt;
  Statistic_Init_children := λ _ _ _ _ _, tt;
|}.

(** A node (0,4) at 1 whose left child, at 2, is empty and whose right
    child, at 3, holds all four points. *)
Definition heap_empty_left : gmap addr (Node Interval Z) :=
  list_to_map
    [ (1%positive, inner 2 3 0 4);
      (2%positive, mkNode (0, 0) Null Null 0 0 0);
      (3%positive, mkNode (0, 4) Null Null 0 4 (range_sum points 0 4)) ].

(** An empty node at 1 whose two child pointers both point to the empty
    leaf at 2. *)
Definition heap_shared : gmap addr (Node Interval Z) :=
  list_to_map
    [ (1%positive, mkNode (0, 0) (Ref 2) (Ref 2) 0 0 0);
      (2%positive, mkNode (0, 0) Null Null 0 0 0) ].

(** A tree with a gap: the right child begins at 5, one point after the
    end of the left child. *)
Definition tree_gap : tree Interval Z :=
  tinner 0 8 (TLeaf (0, 4) 0 4 (range_sum points 0 4))
             (TLeaf (5, 8) 5 3 (range_sum points 5 3)).

End Sample.

(** * Verification *)

Section Verification.

Context {Bound Dataset Statistic : Type}.
Context {BO : BoundOps Bound} {DO : DatasetOps Dataset}.
Context {SO : StatisticOps Dataset Statistic} {PF : Platform}.

Implicit Types (σ : State Bound Statistic) (n : Node Bound Statistic).
Implicit Types (h : gmap addr (Node Bound Statistic)).
Implicit Types (t : tree Bound Statistic) (p q this : addr).

#[local] Set Warnings "-clear-no-such-hyp".

(** ** Running the monad *)

Lemma bind_done {A B} (m : M Bound Statistic A) (k : A → M Bound Statistic B)
    σ a σ1 :
  m σ = (Done a, σ1) → bind m k σ = k a σ1.
Proof. intros E. unfold bind. by rewrite E. Qed.

Lemma bind_fault {A B} (m : M Bound Statistic A) (k : A → M Bound Statistic B)
    σ f σ1 :
  m σ = (Fault f, σ1) → bind m k σ = (Fault f, σ1).
Proof. intros E. unfold bind. by rewrite E. Qed.

Lemma bind_done_inv {A B} (m : M Bound Statistic A)
    (k : A → M Bound Statistic B) σ b σ' :
  bind m k σ = (Done b, σ') →
  ∃ a σ1, m σ = (Done a, σ1) ∧ k a σ1 = (Done b, σ').
Proof.
  unfold bind. destruct (m σ) as [[a|f] σ1]; [eauto | discriminate].
Qed.

Lemma load_some this σ n :
  heap σ !! this = Some n → load this σ = (Done n, σ).
Proof. intros E. unfold load. by rewrite E. Qed.

Lemma load_done_inv this σ n σ' :
  load this σ = (Done n, σ') → heap σ !! this = Some n ∧ σ' = σ.
Proof.
  unfold load. destruct (heap σ !! this); intros E; by simplify_eq.
Qed.

Lemma modify_some this f σ n :
  heap σ !! this = Some n →
  modify this f σ = (Done tt, set_heap <[this := f n]> σ).
Proof. intros E. unfold modify. by rewrite E. Qed.

Lemma deref_ref a σ n :
  heap σ !! a = Some n → deref (Ref a) σ = (Done a, σ).
Proof. intros E. unfold deref, bind, load, ret. by rewrite E. Qed.

Lemma load_ptr_ref a σ n :
  heap σ !! a = Some n → load_ptr (Ref a) σ = (Done n, σ).
Proof.
  intros E. unfold load_ptr. rewrite (bind_done _ _ _ _ _ (deref_ref _ _ _ E)).
  by apply load_some.
Qed.

(** A debug assertion about the fields of [this]. *)
Lemma DEBUG_ASSERT_load this (c : Node Bound Statistic → bool) σ :
  DEBUG_ASSERT (n <- load this ;; ret (c n)) σ =
  if debug then
    match heap σ !! this with
    | Some n => if c n then (Done tt, σ) else (Fault AssertionFailed, σ)
    | None => (Fault UndefinedBehaviour, σ)
    end
  else (Done tt, σ).
Proof.
  unfold DEBUG_ASSERT, bind, load, ret, raise.
  destruct debug; [|done].
  destruct (heap σ !! this) as [n|]; [|done]. by destruct (c n).
Qed.

(** Symbolic execution: evaluate, using the known heap cells. *)
Ltac run :=
  repeat (cbn;
          first
            [ rewrite lookup_insert_eq
            | rewrite lookup_insert_ne by done
            | rewrite insert_insert_eq
            | match goal with
              | E : ?h !! ?p = _ |- context [?h !! ?p] => rewrite E
              end ]);
  cbn.

(** ** [FindByBeginCount], one level at a time *)

Ltac find_tail n :=
  destruct ((begin_ n =? _) && (count_ n =? _)); [done|];
  destruct (is_leaf n); [done|];
  destruct (right_ n) as [| |?r]; run; try done;
  match goal with
  | |- context [heap _ !! ?r] =>
      let rn := fresh "rn" in
      destruct (heap _ !! r) as [rn|] eqn:?; run; [|done];
      destruct (_ <? begin_ rn); run; [|done]
  end;
  destruct (left_ n) as [| |?l]; run; try done;
  match goal with
  | |- context [heap _ !! ?l] => destruct (heap _ !! l) eqn:?; run; done
  end.

Lemma FindByBeginCount_unfold fuel this begin_q count_q σ :
  FindByBeginCount (S fuel) this begin_q count_q σ =
  find_step (FindByBeginCount fuel) this begin_q count_q σ.
Proof.
  cbn [FindByBeginCount].
  unfold find_step, DEBUG_ASSERT.
  destruct (heap σ !! this) as [n|] eqn:E; [|by destruct debug; run].
  destruct debug; run.
  - destruct (begin_q >=? begin_ n); run; [|done].
    destruct (count_q <=? count_ n); run; [|done].
    find_tail n.
  - find_tail n.
Qed.

Lemma FindByBeginCount_const_unfold fuel this begin_q count_q σ :
  FindByBeginCount_const (S fuel) this begin_q count_q σ =
  find_step (FindByBeginCount_const fuel) this begin_q count_q σ.
Proof.
  cbn [FindByBeginCount_const].
  unfold find_step, DEBUG_ASSERT.
  destruct (heap σ !! this) as [n|] eqn:E; [|by destruct debug; run].
  destruct debug; run.
  - destruct (begin_q >=? begin_ n); run; [|done].
    destruct (count_q <=? count_ n); run; [|done].
    find_tail n.
  - find_tail n.
Qed.

(** ** Lookup *)

(** C1. [FindByBeginCount] called on a node with that node's own [begin]
    and [count] returns the node itself, in either overload and in either
    build, and leaves the state alone. *)
Theorem FindByBeginCount_self fuel this σ n :
  heap σ !! this = Some n →
  FindByBeginCount_const (S fuel) this (begin_ n) (count_ n) σ
    = (Done (Ref this), σ) ∧
  FindByBeginCount (S fuel) this (begin_ n) (count_ n) σ
    = (Done (Ref this), σ).
Proof.
  intros E.
  rewrite FindByBeginCount_const_unfold, FindByBeginCount_unfold.
  unfold find_step. rewrite E.
  replace (begin_ n >=? begin_ n) with true by (symmetry; apply Z.geb_le; lia).
  replace (count_ n <=? count_ n) with true by (symmetry; apply Z.leb_le; lia).
  rewrite !Z.eqb_refl, !andb_false_r. done.
Qed.

Lemma find_step_sound rec this begin_q count_q σ res σ' :
  (∀ a σ1 res1 σ1', rec a begin_q count_q σ1 = (Done res1, σ1') →
     res1 ≠ Null →
     σ1' = σ1 ∧ ∃ q n, res1 = Ref q ∧ heap σ1 !! q = Some n ∧
       begin_ n = begin_q ∧ count_ n = count_q) →
  find_step rec this begin_q count_q σ = (Done res, σ') →
  res ≠ Null →
  σ' = σ ∧ ∃ q n, res = Ref q ∧ heap σ !! q = Some n ∧
    begin_ n = begin_q ∧ count_ n = count_q.
Proof.
  intros IH. unfold find_step.
  destruct (heap σ !! this) as [n|] eqn:E; [|done].
  destruct (debug && negb (begin_q >=? begin_ n)); [done|].
  destruct (debug && negb (count_q <=? count_ n)); [done|].
  destruct ((begin_ n =? begin_q) && (count_ n =? count_q)) eqn:Eq.
  { intros [= <- <-] _. apply andb_true_iff in Eq as [?%Z.eqb_eq ?%Z.eqb_eq].
    split; [done|]. by exists this, n. }
  destruct (is_leaf n); [by intros [= <- <-]|].
  destruct (right_ n) as [| |r]; try done.
  destruct (heap σ !! r) as [rn|]; [|done].
  destruct (begin_q <? begin_ rn); [|by apply IH].
  destruct (left_ n) as [| |l]; try done.
  destruct (heap σ !! l); [by apply IH|done].
Qed.

Lemma FindByBeginCount_sound_mutable fuel : ∀ this begin_q count_q σ res σ',
  FindByBeginCount fuel this begin_q count_q σ = (Done res, σ') →
  res ≠ Null →
  σ' = σ ∧ ∃ q n, res = Ref q ∧ heap σ !! q = Some n ∧
    begin_ n = begin_q ∧ count_ n = count_q.
Proof.
  induction fuel as [|fuel IH]; intros this begin_q count_q σ res σ'; [done|].
  rewrite FindByBeginCount_unfold. apply find_step_sound.
  intros a σ1 res1 σ1'. apply IH.
Qed.

Lemma FindByBeginCount_sound_const fuel : ∀ this begin_q count_q σ res σ',
  FindByBeginCount_const fuel this begin_q count_q σ = (Done res, σ') →
  res ≠ Null →
  σ' = σ ∧ ∃ q n, res = Ref q ∧ heap σ !! q = Some n ∧
    begin_ n = begin_q ∧ count_ n = count_q.
Proof.
  induction fuel as [|fuel IH]; intros this begin_q count_q σ res σ'; [done|].
  rewrite FindByBeginCount_const_unfold. apply find_step_sound.
  intros a σ1 res1 σ1'. apply IH.
Qed.

(** C9. Whenever [FindByBeginCount] returns a non-null pointer, it points
    to a node whose [begin] and [count] are the two arguments; the read-only
    and the mutable overload alike, and neither changes the state. *)
Theorem FindByBeginCount_sound fuel this begin_q count_q σ res σ' :
  FindByBeginCount_const fuel this begin_q count_q σ = (Done res, σ') ∨
  FindByBeginCount fuel this begin_q count_q σ = (Done res, σ') →
  res ≠ Null →
  σ' = σ ∧ ∃ q n, res = Ref q ∧ heap σ !! q = Some n ∧
    begin_ n = begin_q ∧ count_ n = count_q.
Proof.
  intros [E|E].
  - by apply (FindByBeginCount_sound_const fuel this).
  - by apply (FindByBeginCount_sound_mutable fuel this).
Qed.

(** Both overloads run the same code. *)
Lemma find_step_ext rec rec' this begin_q count_q σ :
  (∀ a, rec a begin_q count_q σ = rec' a begin_q count_q σ) →
  find_step rec this begin_q count_q σ = find_step rec' this begin_q count_q σ.
Proof.
  intros Hrec. unfold find_step.
  repeat (case_match; try done); by rewrite Hrec.
Qed.

Lemma FindByBeginCount_overloads fuel : ∀ this begin_q count_q σ,
  FindByBeginCount fuel this begin_q count_q σ =
  FindByBeginCount_const fuel this begin_q count_q σ.
Proof.
  induction fuel as [|fuel IH]; intros this begin_q count_q σ; [done|].
  rewrite FindByBeginCount_unfold, FindByBeginCount_const_unfold.
  apply find_step_ext. intros a. apply IH.
Qed.

(** ** Trees on the heap *)

Lemma tree_at_repr D h p t : tree_at D h p t → repr h p t.
Proof.
  revert p. induction t as [b bg ct st|b bg ct st l IHl r IHr]; intros p; cbn.
  - by intros [_ ?].
  - intros [_ (pl & pr & ? & ? & ?)]. exists pl, pr. eauto.
Qed.

Lemma repr_tree_at h p t : repr h p t → tree_at (dom h) h p t.
Proof.
  revert p. induction t as [b bg ct st|b bg ct st l IHl r IHr]; intros p; cbn.
  - intros E. split; [|done]. apply elem_of_dom. eauto.
  - intros (pl & pr & E & ? & ?). split; [apply elem_of_dom; eauto|].
    exists pl, pr. eauto.
Qed.

Lemma tree_at_mono D D' h p t : D ⊆ D' → tree_at D h p t → tree_at D' h p t.
Proof.
  intros HD. revert p.
  induction t as [b bg ct st|b bg ct st l IHl r IHr]; intros p; cbn.
  - intros [? ?]. split; [set_solver|done].
  - intros [? (pl & pr & ? & ? & ?)]. split; [set_solver|].
    exists pl, pr. eauto.
Qed.

Lemma tree_at_frame D h h' p t :
  (∀ a, a ∈ D → h' !! a = h !! a) → tree_at D h p t → tree_at D h' p t.
Proof.
  intros Hagree. revert p.
  induction t as [b bg ct st|b bg ct st l IHl r IHr]; intros p; cbn.
  - intros [? ?]. split; [done|]. by rewrite Hagree.
  - intros [? (pl & pr & ? & ? & ?)]. split; [done|].
    exists pl, pr. rewrite Hagree by done. eauto.
Qed.

Lemma tree_at_root_in D h p t : tree_at D h p t → p ∈ D.
Proof. destruct t; cbn; by intros [? _]. Qed.

Lemma repr_root h p t :
  repr h p t →
  ∃ n, h !! p = Some n ∧ bound_ n = t_bound t ∧ begin_ n = t_begin t ∧
       count_ n = t_count t ∧ stat_ n = t_stat t ∧
       is_leaf n = t_is_leaf t.
Proof.
  destruct t; cbn.
  - intros E. eexists. by split.
  - intros (pl & pr & E & _). eexists. by split.
Qed.

Lemma height_pos t : (1 ≤ height t)%nat.
Proof. destruct t; cbn; lia. Qed.

(** ** Lookup of a range that no node has *)

Lemma descent_ends_at_leaf t begin_q :
  ∃ lf, last (descent t begin_q) = Some lf ∧ t_is_leaf lf = true.
Proof.
  induction t as [b bg ct st|b bg ct st l IHl r IHr].
  - by eexists.
  - cbn [descent]. destruct (begin_q <? t_begin r).
    + destruct IHl as (lf & E & ?). exists lf. split; [|done].
      rewrite last_cons, E. done.
    + destruct IHr as (lf & E & ?). exists lf. split; [|done].
      rewrite last_cons, E. done.
Qed.

Lemma FindByBeginCount_const_absent t : ∀ fuel p begin_q count_q σ,
  repr (heap σ) p t →
  (begin_q, count_q) ∉ ranges t →
  (height t ≤ fuel)%nat →
  FindByBeginCount_const fuel p begin_q count_q σ =
  (if debug && negb (forallb (fits begin_q count_q) (descent t begin_q))
   then Fault AssertionFailed else Done Null, σ).
Proof.
  induction t as [b bg ct st|b bg ct st l IHl r IHr];
    intros fuel p begin_q count_q σ Hrepr Hnot Hfuel;
    (destruct fuel as [|fuel]; [cbn in Hfuel; lia|]);
    rewrite FindByBeginCount_const_unfold; unfold find_step;
    cbn in Hrepr, Hnot, Hfuel.
  - rewrite Hrepr. cbn. unfold fits. cbn.
    assert ((bg =? begin_q) && (ct =? count_q) = false) as ->.
    { apply andb_false_iff.
      destruct (decide (bg = begin_q)) as [->|]; [|left; by apply Z.eqb_neq].
      right. apply Z.eqb_neq. intros ->. apply Hnot. by left. }
    by destruct debug, (begin_q >=? bg), (count_q <=? ct).
  - destruct Hrepr as (pl & pr & E & Hl & Hr). rewrite E. cbn.
    apply not_elem_of_cons in Hnot as [Hne Hnot].
    apply not_elem_of_app in Hnot as [Hnl Hnr].
    assert ((bg =? begin_q) && (ct =? count_q) = false) as ->.
    { apply andb_false_iff.
      destruct (decide (bg = begin_q)) as [->|]; [|left; by apply Z.eqb_neq].
      right. apply Z.eqb_neq. by intros ->. }
    destruct (repr_root _ _ _ Hr) as (rn & -> & _ & <- & _).
    destruct (repr_root _ _ _ Hl) as (ln & El & _).
    unfold fits at 1. cbn.
    destruct (begin_q <? begin_ rn).
    + rewrite El, (IHl fuel pl) by (done || lia).
      by destruct debug, (begin_q >=? bg), (count_q <=? ct).
    + rewrite (IHr fuel pr) by (done || lia).
      by destruct debug, (begin_q >=? bg), (count_q <=? ct).
Qed.

(** C2, as amended.  For a tree on the heap and a query that no node of it
    has, [FindByBeginCount] (either overload) makes one decision per level,
    [left] if [begin_q < right.begin] and [right] otherwise, along the path
    [descent], which ends at a leaf.  In a build without debug assertions it
    returns [NULL]; in a debug build it returns [NULL] if the query
    satisfies the asserted precondition at every node of that path and
    aborts at an assertion otherwise.  It never returns a node, and it
    leaves the state alone. *)
Theorem FindByBeginCount_absent t fuel p begin_q count_q σ :
  repr (heap σ) p t →
  (begin_q, count_q) ∉ ranges t →
  (height t ≤ fuel)%nat →
  let outcome :=
    (if debug && negb (forallb (fits begin_q count_q) (descent t begin_q))
     then Fault AssertionFailed else Done Null, σ) in
  FindByBeginCount_const fuel p begin_q count_q σ = outcome ∧
  FindByBeginCount fuel p begin_q count_q σ = outcome ∧
  ∃ lf, last (descent t begin_q) = Some lf ∧ t_is_leaf lf = true.
Proof.
  intros Hrepr Hnot Hfuel outcome. split_and!.
  - by apply FindByBeginCount_const_absent.
  - rewrite FindByBeginCount_overloads. by apply FindByBeginCount_const_absent.
  - apply descent_ends_at_leaf.
Qed.

(** ** Construction *)

Lemma Init_run this begin_in count_in σ n :
  heap σ !! this = Some n →
  Init this begin_in count_in σ =
  if debug && negb (begin_ n =? BIG_BAD_NUMBER) then
    (Fault AssertionFailed, σ)
  else
    (Done tt,
     set_heap <[this := mkNode (bound_ n)
                          (if debug then Poison else left_ n)
                          (if debug then Poison else right_ n)
                          begin_in count_in (stat_ n)]> σ).
Proof.
  intros E. destruct σ as [h snk src]. cbn in E.
  unfold Init, DEBUG_ASSERT, DEBUG_POISON_PTR, DEBUG_ONLY, set_heap.
  destruct debug; run.
  - by destruct (begin_ n =? BIG_BAD_NUMBER); run.
  - done.
Qed.

(** C10, as amended.  [Init] writes [begin_] and [count_] of its own node
    and, in a debug build, re-poisons that node's two child pointers; the
    bound and the statistic keep their values, every other node of the heap
    and both streams are untouched. *)
Theorem Init_frame this begin_in count_in σ n :
  heap σ !! this = Some n →
  (debug = true → begin_ n = BIG_BAD_NUMBER) →
  ∃ σ' n',
    Init this begin_in count_in σ = (Done tt, σ') ∧
    heap σ' !! this = Some n' ∧
    begin_ n' = begin_in ∧ count_ n' = count_in ∧
    bound_ n' = bound_ n ∧ stat_ n' = stat_ n ∧
    left_ n' = (if debug then Poison else left_ n) ∧
    right_ n' = (if debug then Poison else right_ n) ∧
    (∀ q, q ≠ this → heap σ' !! q = heap σ !! q) ∧
    sink σ' = sink σ ∧ source σ' = source σ.
Proof.
  intros E Hfresh. rewrite (Init_run _ _ _ _ _ E).
  replace (debug && negb (begin_ n =? BIG_BAD_NUMBER)) with false.
  2: { destruct debug; [|done]. by rewrite Hfresh, Z.eqb_refl. }
  eexists _, _. split; [done|]. cbn. rewrite lookup_insert_eq.
  repeat split; try done. intros q Hq. by rewrite lookup_insert_ne.
Qed.

(** [set_children] with both children present, neither being the node
    itself. *)
Lemma set_children_internal_run data this l r σ n ln rn :
  heap σ !! this = Some n →
  heap σ !! l = Some ln → heap σ !! r = Some rn →
  l ≠ this → r ≠ this →
  set_children data this (Ref l) (Ref r) σ =
  (if debug && negb (contiguous n ln rn) then Fault AssertionFailed
   else Done tt,
   set_heap <[this := mkNode (bound_ n) (Ref l) (Ref r) (begin_ n) (count_ n)
                        (Statistic_Init_children data (begin_ n) (count_ n)
                           (stat_ ln) (stat_ rn))]> σ).
Proof.
  intros E El Er Hl Hr. destruct σ as [h snk src]. cbn in E, El, Er.
  unfold set_children, DEBUG_ASSERT, contiguous, set_heap.
  run. destruct debug; run; [|done].
  destruct (count_ n =? index_add (count_ ln) (count_ rn)); run; [|done].
  destruct (begin_ ln =? begin_ n); run; [|done].
  by destruct (begin_ rn =? index_add (begin_ n) (count_ ln)); run.
Qed.

(** [set_children] with a null left pointer: the node counts as a leaf,
    whatever the right pointer is. *)
Lemma set_children_leaf_run data this right_in σ n :
  heap σ !! this = Some n →
  set_children data this Null right_in σ =
  (Done tt,
   set_heap <[this := mkNode (bound_ n) Null right_in (begin_ n) (count_ n)
                        (Statistic_Init data (begin_ n) (count_ n))]> σ).
Proof.
  intros E. destruct σ as [h snk src]. cbn in E.
  unfold set_children, set_heap. by run.
Qed.

(** C4. With both children present [set_children] computes the statistic
    by the children form from the two children's statistics and, in a debug
    build, asserts the three contiguity conditions; with both absent it
    computes the statistic by the range form over the node's own
    [(begin, count)]. *)
Theorem set_children_statistic data this σ n :
  heap σ !! this = Some n →
  (∀ l r ln rn,
     heap σ !! l = Some ln → heap σ !! r = Some rn → l ≠ this → r ≠ this →
     set_children data this (Ref l) (Ref r) σ =
     (if debug && negb (contiguous n ln rn) then Fault AssertionFailed
      else Done tt,
      set_heap <[this := mkNode (bound_ n) (Ref l) (Ref r)
                           (begin_ n) (count_ n)
                           (Statistic_Init_children data (begin_ n) (count_ n)
                              (stat_ ln) (stat_ rn))]> σ)) ∧
  set_children data this Null Null σ =
  (Done tt,
   set_heap <[this := mkNode (bound_ n) Null Null (begin_ n) (count_ n)
                        (Statistic_Init data (begin_ n) (count_ n))]> σ).
Proof.
  intros E. split.
  - intros l r ln rn El Er Hl Hr. by apply set_children_internal_run.
  - by apply set_children_leaf_run.
Qed.

(** ** Structural encoding *)

Lemma Serialize_run t : ∀ fuel p σ,
  repr (heap σ) p t →
  (height t ≤ fuel)%nat →
  Serialize fuel p σ = (Done tt, set_sink (λ s, s ++ encode t) σ).
Proof.
  induction t as [b bg ct st|b bg ct st l IHl r IHr];
    intros fuel p [h snk src] Hrepr Hfuel;
    (destruct fuel as [|fuel]; [cbn in Hfuel; lia|]);
    cbn in Hrepr, Hfuel; cbn [Serialize].
  - run. by rewrite <- !app_assoc.
  - destruct Hrepr as (pl & pr & E & Hl & Hr). run.
    destruct (repr_root _ _ _ Hl) as (ln & El & _).
    destruct (repr_root _ _ _ Hr) as (rn & Er & _).
    run. rewrite (IHl fuel pl) by (done || lia). run.
    rewrite (IHr fuel pr) by (done || lia). run.
    by rewrite <- !app_assoc.
Qed.

Lemma same_structure_refl t : same_structure t t.
Proof. induction t; cbn; auto. Qed.

Lemma same_structure_encode t t' : same_structure t t' → encode t = encode t'.
Proof.
  revert t'. induction t as [b bg ct st|b bg ct st l IHl r IHr];
    intros [b' bg' ct' st'|b' bg' ct' st' l' r']; cbn; try done.
  - by intros (-> & -> & ->).
  - intros (-> & -> & -> & Hl & Hr). by rewrite (IHl l'), (IHr r').
Qed.

Lemma rebuild_same_structure data t : same_structure (rebuild data t) t.
Proof. induction t; cbn; auto. Qed.

(** C6. [Serialize] appends to the sink, for every node in order, the
    bound, [begin], [count], the has-children flag and, when the flag is
    set, the encoding of the left subtree followed by that of the right
    one; no statistic is written: trees that differ in statistics only
    give the same stream.  [SerializeAll] writes the format tag, then the
    dataset, then that structural stream. *)
Theorem Serialize_stream t fuel data p σ :
  repr (heap σ) p t →
  (height t ≤ fuel)%nat →
  Serialize fuel p σ = (Done tt, set_sink (λ s, s ++ encode t) σ) ∧
  SerializeAll fuel data p σ =
    (Done tt,
     set_sink (λ s, s ++ [IMagic spacetree_magic]
                      ++ Dataset_Serialize data ++ encode t) σ) ∧
  (∀ b bg ct (st : Statistic), encode (TLeaf b bg ct st) =
     Bound_Serialize b ++ [IInt bg; IInt ct; IBool false]) ∧
  (∀ b bg ct (st : Statistic) l r, encode (TNode b bg ct st l r) =
     Bound_Serialize b ++ [IInt bg; IInt ct; IBool true]
       ++ encode l ++ encode r) ∧
  (∀ t', same_structure t t' → encode t' = encode t).
Proof.
  intros Hrepr Hfuel. split_and!; try done.
  - by apply Serialize_run.
  - destruct σ as [h snk src]. unfold SerializeAll. cbn.
    rewrite (Serialize_run t) by done. cbn.
    by rewrite <- !app_assoc.
  - intros t' Hs. symmetry. by apply same_structure_encode.
Qed.

(** ** Format tag *)

(** C7.  [DeserializeAll] reads the format tag first.  If it is not the tag
    of ["spacetree"] with this [Dataset] and [Bound], the load stops with a
    format mismatch: nothing after the tag has been read, and the heap is
    as it was, so no node has been created or written.  If it is, the load
    goes on with the dataset and then the structure. *)
Theorem DeserializeAll_checks_tag fuel this σ m rest :
  source σ = IMagic m :: rest →
  (m ≠ spacetree_magic →
   DeserializeAll fuel this σ = (Fault MagicMismatch, set_source rest σ)) ∧
  (m = spacetree_magic →
   DeserializeAll fuel this σ =
   (data <- Get_with Dataset_Deserialize ;;
    Deserialize fuel data this ;;
    ret data) (set_source rest σ)).
Proof.
  intros E. destruct σ as [h snk src]. cbn in E. subst src.
  unfold DeserializeAll. split; intros Hm; cbn.
  - by apply Z.eqb_neq in Hm as ->.
  - apply Z.eqb_eq in Hm as ->. done.
Qed.

(** ** Structural decoding *)

Lemma valid_node (b : Bound) bg ct (st : Statistic) l r :
  valid (TNode b bg ct st l r) = true →
  ct = index_add (t_count l) (t_count r) ∧ t_begin l = bg ∧
  t_begin r = index_add bg (t_count l) ∧
  valid l = true ∧ valid r = true.
Proof.
  cbn. rewrite !andb_true_iff, !Z.eqb_eq. tauto.
Qed.

Lemma rebuild_begin data t : t_begin (rebuild data t) = t_begin t.
Proof. by destruct t. Qed.

Lemma rebuild_count data t : t_count (rebuild data t) = t_count t.
Proof. by destruct t. Qed.

(** The heap reasoning behind one internal node of [Deserialize]: the two
    children are allocated freshly and decoded one after the other, each
    decoding touching only its own node and nodes allocated after it. *)
Lemma children_assembled h0 this nh c h1 h2 tl tr nf :
  let l := fresh (dom h0) in
  let r := fresh (dom h1) in
  h0 !! this = Some nh →
  tree_at ({[l]} ∪ (dom h1 ∖ dom (<[l := c]> h0))) h1 l tl →
  (∀ a, a ∈ dom (<[l := c]> h0) → a ≠ l → h1 !! a = <[l := c]> h0 !! a) →
  dom (<[l := c]> h0) ⊆ dom h1 →
  tree_at ({[r]} ∪ (dom h2 ∖ dom (<[r := c]> h1))) h2 r tr →
  (∀ a, a ∈ dom (<[r := c]> h1) → a ≠ r → h2 !! a = <[r := c]> h1 !! a) →
  dom (<[r := c]> h1) ⊆ dom h2 →
  l ≠ this ∧ r ≠ this ∧ h2 !! this = Some nh ∧
  tree_at ({[this]} ∪ (dom (<[this := nf]> h2) ∖ dom h0))
    (<[this := nf]> h2) l tl ∧
  tree_at ({[this]} ∪ (dom (<[this := nf]> h2) ∖ dom h0))
    (<[this := nf]> h2) r tr ∧
  (∀ a, a ∈ dom h0 → a ≠ this → <[this := nf]> h2 !! a = h0 !! a) ∧
  dom h0 ⊆ dom (<[this := nf]> h2).
Proof.
  intros l r E Hl Hfr1 Hdom1 Hr Hfr2 Hdom2.
  assert (l ∉ dom h0) as Hlfresh by apply is_fresh.
  assert (r ∉ dom h1) as Hrfresh by apply is_fresh.
  assert (this ∈ dom h0) as Hthis by (apply elem_of_dom; eauto).
  rewrite dom_insert_L in Hdom1, Hdom2, Hfr1, Hfr2, Hl, Hr.
  assert (l ≠ this) as Hlt by (intros <-; done).
  assert (r ≠ this) as Hrt by (intros <-; set_solver).
  assert (l ≠ r) as Hlr by (intros <-; set_solver).
  assert (∀ a, a ∈ dom h1 → h2 !! a = h1 !! a) as Hfr2'.
  { intros a Ha. rewrite Hfr2 by set_solver.
    apply lookup_insert_ne. set_solver. }
  assert (∀ a, a ∈ dom h0 → h1 !! a = h0 !! a) as Hfr1'.
  { intros a Ha. rewrite Hfr1 by set_solver.
    apply lookup_insert_ne. set_solver. }
  split_and!; try done.
  - rewrite Hfr2', Hfr1' by set_solver. done.
  - eapply tree_at_mono; [|eapply tree_at_frame; [|exact Hl]].
    + rewrite dom_insert_L. set_solver.
    + intros a Ha. rewrite lookup_insert_ne by set_solver.
      apply Hfr2'. set_solver.
  - eapply tree_at_mono; [|eapply tree_at_frame; [|exact Hr]].
    + rewrite dom_insert_L. set_solver.
    + intros a Ha. rewrite lookup_insert_ne; [done|]. set_solver.
  - intros a Ha Hne. rewrite lookup_insert_ne by done.
    rewrite Hfr2', Hfr1' by set_solver. done.
  - rewrite dom_insert_L. set_solver.
Qed.

Lemma DEBUG_ASSERT_fresh this σ n0 :
  heap σ !! this = Some n0 →
  (debug = true → begin_ n0 = BIG_BAD_NUMBER) →
  DEBUG_ASSERT (n <- load this ;; ret (begin_ n =? BIG_BAD_NUMBER)) σ
  = (Done tt, σ).
Proof.
  intros E Hfresh.
  rewrite (DEBUG_ASSERT_load this (λ n, begin_ n =? BIG_BAD_NUMBER)), E.
  destruct debug; [|done]. by rewrite Hfresh, Z.eqb_refl.
Qed.

Lemma ctor_fresh :
  debug = true → begin_ BinarySpaceTree_ctor = BIG_BAD_NUMBER.
Proof. unfold BinarySpaceTree_ctor. cbn. by intros ->. Qed.

Lemma Deserialize_encode {RT : BoundRoundTrip Bound} data t :
  ∀ fuel this σ rest n0,
  (height t ≤ fuel)%nat →
  heap σ !! this = Some n0 →
  (debug = true → begin_ n0 = BIG_BAD_NUMBER) →
  (debug = true → valid t = true) →
  source σ = encode t ++ rest →
  ∃ h', Deserialize fuel data this σ = (Done tt, mkState h' (sink σ) rest) ∧
        tree_at ({[this]} ∪ (dom h' ∖ dom (heap σ))) h' this (rebuild data t) ∧
        (∀ a, a ∈ dom (heap σ) → a ≠ this → h' !! a = heap σ !! a) ∧
        dom (heap σ) ⊆ dom h'.
Proof.
  induction t as [b bg ct st|b bg ct st l IHl r IHr];
    intros fuel this [h snk src] rest n0 Hfuel E Hfresh Hvalid Hsrc;
    (destruct fuel as [|fuel]; [cbn in Hfuel; lia|]);
    cbn in Hfuel, Hsrc; cbn [Deserialize]; subst src;
    rewrite (bind_done _ _ _ _ _ (DEBUG_ASSERT_fresh _ _ _ E Hfresh));
    cbn in E; rewrite <- !app_assoc; run; rewrite bound_round_trip; run.
  - rewrite (set_children_leaf_run _ _ _ _ _ (lookup_insert_eq _ _ _)). run.
    eexists. split; [done|]. split_and!.
    + set_solver.
    + apply lookup_insert_eq.
    + intros a _ Hne. by rewrite lookup_insert_ne.
    + rewrite dom_insert_L. set_solver.
  - rewrite <- app_assoc.
    assert (debug = true → valid l = true ∧ valid r = true ∧
            ct = index_add (t_count l) (t_count r) ∧ t_begin l = bg ∧
            t_begin r = index_add bg (t_count l)) as Hv.
    { intros Hd. destruct (valid_node _ _ _ _ _ _ (Hvalid Hd)). naive_solver. }
    set (nh := mkNode b (left_ n0) (right_ n0) bg ct (stat_ n0)).
    set (h0 := <[this := nh]> h).
    assert (h0 !! this = Some nh) as E0 by apply lookup_insert_eq.
    match goal with
    | |- context [Deserialize fuel data ?pl ?σl] =>
        destruct (IHl fuel pl σl (encode r ++ rest) BinarySpaceTree_ctor)
          as (h1 & -> & Htl & Hfr1 & Hdom1);
          [lia | apply lookup_insert_eq | apply ctor_fresh
          | naive_solver | done |]
    end.
    cbn in Htl, Hfr1, Hdom1. run.
    match goal with
    | |- context [Deserialize fuel data ?pr ?σr] =>
        destruct (IHr fuel pr σr rest BinarySpaceTree_ctor)
          as (h2 & -> & Htr & Hfr2 & Hdom2);
          [lia | apply lookup_insert_eq | apply ctor_fresh
          | naive_solver | done |]
    end.
    cbn in Htr, Hfr2, Hdom2. run.
    pose (nf := mkNode b (Ref (fresh (dom h0))) (Ref (fresh (dom h1))) bg ct
            (Statistic_Init_children data bg ct
               (t_stat (rebuild data l)) (t_stat (rebuild data r)))).
    destruct (children_assembled h0 this nh BinarySpaceTree_ctor h1 h2
                (rebuild data l) (rebuild data r) nf E0 Htl Hfr1 Hdom1
                Htr Hfr2 Hdom2)
      as (Hlt & Hrt & E2 & Htl' & Htr' & Hfr & Hdom).
    destruct (repr_root _ _ _ (tree_at_repr _ _ _ _ Htl'))
      as (ln & El & _ & Hbl & Hcl & Hsl & _).
    destruct (repr_root _ _ _ (tree_at_repr _ _ _ _ Htr'))
      as (rn & Er & _ & Hbr & Hcr & Hsr & _).
    rewrite lookup_insert_ne in El, Er by done.
    rewrite rebuild_begin in Hbl, Hbr. rewrite rebuild_count in Hcl, Hcr.
    rewrite (set_children_internal_run data this _ _ _ nh ln rn)
      by done.
    assert (debug && negb (contiguous nh ln rn) = false) as ->.
    { destruct debug; [|done]. destruct Hv as (_ & _ & Hc & Hb1 & Hb2); [done|].
      unfold contiguous. cbn. rewrite Hbl, Hcl, Hbr, Hcr.
      rewrite <- Hc, <- Hb2, Hb1, !Z.eqb_refl. done. }
    cbn. rewrite Hsl, Hsr. fold nf.
    exists (<[this := nf]> h2). split; [done|].
    assert (dom h0 = dom h) as Hdom0.
    { unfold h0. rewrite dom_insert_L.
      assert (this ∈ dom h) by (apply elem_of_dom; eauto). set_solver. }
    rewrite Hdom0 in *. split_and!.
    + set_solver.
    + exists (fresh (dom h)), (fresh (dom h1)).
      split_and!; [|done|done].
      rewrite lookup_insert_eq. unfold nf. by rewrite Hdom0.
    + intros a Ha Hne. rewrite Hfr by done. by apply lookup_insert_ne.
    + done.
Qed.


Lemma same_structure_rebuild data t t' :
  same_structure t t' → rebuild data t' = rebuild data t.
Proof.
  revert t'. induction t as [b bg ct st|b bg ct st l IHl r IHr];
    intros [b' bg' ct' st'|b' bg' ct' st' l' r']; cbn; try done.
  - by intros (-> & -> & ->).
  - intros (-> & -> & -> & Hl & Hr). by rewrite (IHl l'), (IHr r').
Qed.

(** C3. Round trip.  Let a valid tree [t] be rooted at [root], and let
    [this] be a node that is still uninitialised.  [Serialize] succeeds and
    appends a stream [out] to the sink; [Deserialize], run on a source that
    starts with [out], succeeds, consumes exactly [out], and leaves at
    [this] a tree with the bounds, ranges and children structure of [t], in
    which every statistic is the one computed bottom-up from the dataset
    ([rebuild]): it depends on the structure and the dataset only, not on
    the statistics of the tree serialized.  Nodes that were on the heap,
    other than [this], are untouched. *)
Theorem Serialize_Deserialize_round_trip {RT : BoundRoundTrip Bound}
    data t fuel root this σ n0 rest :
  repr (heap σ) root t →
  valid t = true →
  (height t ≤ fuel)%nat →
  heap σ !! this = Some n0 →
  (debug = true → begin_ n0 = BIG_BAD_NUMBER) →
  ∃ out σ1 σ2,
    Serialize fuel root σ = (Done tt, σ1) ∧
    sink σ1 = sink σ ++ out ∧
    Deserialize fuel data this (set_source (out ++ rest) σ1) = (Done tt, σ2) ∧
    source σ2 = rest ∧
    repr (heap σ2) this (rebuild data t) ∧
    same_structure (rebuild data t) t ∧
    (∀ t', same_structure t t' → rebuild data t' = rebuild data t) ∧
    (∀ a, a ∈ dom (heap σ) → a ≠ this → heap σ2 !! a = heap σ !! a).
Proof.
  intros Hrepr Hvalid Hfuel E Hfresh.
  destruct σ as [h snk src]. cbn in E.
  destruct (Deserialize_encode data t fuel this
              (mkState h (snk ++ encode t) (encode t ++ rest)) rest n0)
    as (h' & Hrun & Ht & Hfr & _); try done.
  cbn in Hrun, Ht, Hfr.
  exists (encode t), (mkState h (snk ++ encode t) src),
    (mkState h' (snk ++ encode t) rest).
  split_and!.
  - by rewrite (Serialize_run t).
  - done.
  - exact Hrun.
  - done.
  - by eapply tree_at_repr.
  - apply rebuild_same_structure.
  - intros t'. apply same_structure_rebuild.
  - exact Hfr.
Qed.

(** X19. The same for the whole-tree envelope: what [SerializeAll] writes
    for a valid tree, [DeserializeAll] accepts, consuming exactly that,
    handing back the dataset and leaving the tree with its statistics
    recomputed. *)
Lemma SerializeAll_DeserializeAll_round_trip {RT : BoundRoundTrip Bound}
    {DRT : DatasetRoundTrip Dataset} data t fuel root this σ n0 rest :
  repr (heap σ) root t →
  valid t = true →
  (height t ≤ fuel)%nat →
  heap σ !! this = Some n0 →
  (debug = true → begin_ n0 = BIG_BAD_NUMBER) →
  ∃ out σ1 σ2,
    SerializeAll fuel data root σ = (Done tt, σ1) ∧
    sink σ1 = sink σ ++ out ∧
    DeserializeAll fuel this (set_source (out ++ rest) σ1) = (Done data, σ2) ∧
    source σ2 = rest ∧
    repr (heap σ2) this (rebuild data t).
Proof.
  intros Hrepr Hvalid Hfuel E Hfresh.
  destruct σ as [h snk src]. cbn in E.
  set (out := [IMagic spacetree_magic] ++ Dataset_Serialize data ++ encode t).
  destruct (Deserialize_encode data t fuel this
              (mkState h (snk ++ out) (encode t ++ rest)) rest n0)
    as (h' & Hrun & Ht & _); try done.
  cbn in Hrun, Ht.
  exists out, (mkState h (snk ++ out) src), (mkState h' (snk ++ out) rest).
  split_and!; try done.
  - unfold SerializeAll. cbn. rewrite (Serialize_run t) by done. cbn.
    unfold out. by rewrite <- !app_assoc.
  - unfold DeserializeAll, out. cbn. rewrite Z.eqb_refl. cbn.
    rewrite <- app_assoc, dataset_round_trip. cbn. by rewrite Hrun.
  - by eapply tree_at_repr.
Qed.

(** ** What a successful [Deserialize] leaves behind *)

Lemma DEBUG_ASSERT_load_inv this (c : Node Bound Statistic → bool) σ σ1 :
  DEBUG_ASSERT (n <- load this ;; ret (c n)) σ = (Done tt, σ1) →
  σ1 = σ ∧ (debug = true → ∃ n, heap σ !! this = Some n ∧ c n = true).
Proof.
  rewrite DEBUG_ASSERT_load. destruct debug.
  - destruct (heap σ !! this) as [n|]; [|done].
    destruct (c n) eqn:Hc; [|done]. intros [= <-]. eauto.
  - intros [= <-]. done.
Qed.

Lemma modify_done_inv this f σ σ1 :
  modify this f σ = (Done tt, σ1) →
  ∃ n, heap σ !! this = Some n ∧ σ1 = set_heap <[this := f n]> σ.
Proof.
  cbn. destruct (heap σ !! this) as [n|]; [|done]. intros [= <-]. eauto.
Qed.

Lemma Get_with_done_inv {A} (decode : list item → option (A * list item))
    σ a σ1 :
  Get_with decode σ = (Done a, σ1) →
  ∃ s, decode (source σ) = Some (a, s) ∧ σ1 = set_source s σ.
Proof.
  cbn. destruct (decode (source σ)) as [[a' s]|]; [|done].
  intros [= <- <-]. eauto.
Qed.

Lemma Get_index_done_inv σ z σ1 :
  Get_index σ = (Done z, σ1) →
  ∃ s, source σ = IInt z :: s ∧ σ1 = set_source s σ.
Proof.
  cbn. destruct (source σ) as [|[z'| |] s]; try done.
  intros [= <- <-]. eauto.
Qed.

Lemma Get_bool_done_inv σ b σ1 :
  Get_bool σ = (Done b, σ1) →
  ∃ s, source σ = IBool b :: s ∧ σ1 = set_source s σ.
Proof.
  cbn. destruct (source σ) as [|[|b'|] s]; try done.
  intros [= <- <-]. eauto.
Qed.

Lemma Deserialize_done data fuel : ∀ this σ σ',
  Deserialize fuel data this σ = (Done tt, σ') →
  ∃ t,
    tree_at ({[this]} ∪ (dom (heap σ') ∖ dom (heap σ))) (heap σ') this t ∧
    (∀ a, a ∈ dom (heap σ) → a ≠ this → heap σ' !! a = heap σ !! a) ∧
    dom (heap σ) ⊆ dom (heap σ') ∧
    rebuild data t = t ∧
    (debug = true → valid t = true).
Proof.
  induction fuel as [|fuel IH]; intros this [h snk src] σ' Hrun; [done|].
  cbn [Deserialize] in Hrun.
  apply bind_done_inv in Hrun as ([] & σ1 & H1 & Hrun).
  apply DEBUG_ASSERT_load_inv in H1 as [-> _].
  apply bind_done_inv in Hrun as (b & σ1 & H1 & Hrun).
  apply Get_with_done_inv in H1 as (s1 & _ & ->).
  apply bind_done_inv in Hrun as ([] & σ1 & H1 & Hrun).
  apply modify_done_inv in H1 as (n0 & E & ->). cbn in E.
  apply bind_done_inv in Hrun as (bg & σ1 & H1 & Hrun).
  apply Get_index_done_inv in H1 as (s2 & _ & ->).
  apply bind_done_inv in Hrun as ([] & σ1 & H1 & Hrun).
  apply modify_done_inv in H1 as (n1 & E1 & ->). cbn in E1.
  rewrite lookup_insert_eq in E1. injection E1 as <-.
  apply bind_done_inv in Hrun as (ct & σ1 & H1 & Hrun).
  apply Get_index_done_inv in H1 as (s3 & _ & ->).
  apply bind_done_inv in Hrun as ([] & σ1 & H1 & Hrun).
  apply modify_done_inv in H1 as (n1 & E1 & ->). cbn in E1.
  rewrite lookup_insert_eq in E1. injection E1 as <-.
  apply bind_done_inv in Hrun as (children & σ1 & H1 & Hrun).
  apply Get_bool_done_inv in H1 as (s4 & _ & ->).
  apply bind_done_inv in Hrun as ([pl pr] & σ1 & H1 & Hrun).
  cbn in H1. rewrite !insert_insert_eq in H1.
  set (nh := mkNode b (left_ n0) (right_ n0) bg ct (stat_ n0)) in *.
  set (h0 := <[this := nh]> h) in *.
  assert (h0 !! this = Some nh) as E0 by apply lookup_insert_eq.
  assert (dom h0 = dom h) as Hdom0.
  { unfold h0. rewrite dom_insert_L.
    assert (this ∈ dom h) by (apply elem_of_dom; eauto). set_solver. }
  destruct children.
  - apply bind_done_inv in H1 as (l & σ2 & Hnew & H1).
    cbn in Hnew. injection Hnew as <- <-.
    apply bind_done_inv in H1 as ([] & [h1 snk1 src1] & Hl & H1).
    apply IH in Hl as (tl & Htl & Hfr1 & Hdom1 & Hrl & Hvl).
    cbn in Htl, Hfr1, Hdom1.
    apply bind_done_inv in H1 as (r & σ3 & Hnew & H1).
    cbn in Hnew. injection Hnew as <- <-.
    apply bind_done_inv in H1 as ([] & [h2 snk2 src2] & Hr & H1).
    apply IH in Hr as (tr & Htr & Hfr2 & Hdom2 & Hrr & Hvr).
    cbn in Htr, Hfr2, Hdom2.
    cbn in H1. injection H1 as <- <- <-. cbn [fst snd] in Hrun.
    pose (nf := mkNode b (Ref (fresh (dom h0))) (Ref (fresh (dom h1))) bg ct
            (Statistic_Init_children data bg ct (t_stat tl) (t_stat tr))).
    destruct (children_assembled h0 this nh BinarySpaceTree_ctor h1 h2
                tl tr nf E0 Htl Hfr1 Hdom1 Htr Hfr2 Hdom2)
      as (Hlt & Hrt & E2 & Htl' & Htr' & Hfr & Hdom).
    destruct (repr_root _ _ _ (tree_at_repr _ _ _ _ Htl'))
      as (ln & El & _ & Hbl & Hcl & Hsl & _).
    destruct (repr_root _ _ _ (tree_at_repr _ _ _ _ Htr'))
      as (rn & Er & _ & Hbr & Hcr & Hsr & _).
    rewrite lookup_insert_ne in El, Er by done.
    rewrite (set_children_internal_run data this _ _ _ nh ln rn) in Hrun
      by done.
    destruct (debug && negb (contiguous nh ln rn)) eqn:Hc; [done|].
    injection Hrun as <-. cbn. rewrite Hsl, Hsr. fold nf.
    rewrite Hdom0 in *.
    exists (TNode b bg ct
              (Statistic_Init_children data bg ct (t_stat tl) (t_stat tr))
              tl tr).
    split_and!.
    + cbn. split; [set_solver|].
      exists (fresh (dom h)), (fresh (dom h1)). split_and!; [|done|done].
      rewrite lookup_insert_eq. unfold nf. by rewrite Hdom0.
    + intros a Ha Hne. rewrite Hfr by done. by apply lookup_insert_ne.
    + done.
    + cbn. by rewrite Hrl, Hrr.
    + intros Hd. rewrite Hd in Hc. cbn in Hc.
      apply negb_false_iff in Hc. unfold contiguous in Hc. cbn in Hc.
      rewrite Hbl, Hcl, Hbr, Hcr in Hc. cbn. rewrite Hc.
      by rewrite Hvl, Hvr.
  - injection H1 as <- <- <-. cbn [fst snd] in Hrun.
    rewrite (set_children_leaf_run _ _ _ _ nh) in Hrun by done.
    injection Hrun as <-. cbn. fold h0.
    exists (TLeaf b bg ct (Statistic_Init data bg ct)). cbn.
    unfold h0. rewrite insert_insert_eq. split_and!; try done.
    + set_solver.
    + apply lookup_insert_eq.
    + intros a _ Hne. by apply lookup_insert_ne.
    + rewrite dom_insert_L. set_solver.
Qed.

(** ** Contract violations *)

Lemma Deserialize_initialized data fuel this σ n :
  heap σ !! this = Some n →
  debug = true → begin_ n ≠ BIG_BAD_NUMBER →
  Deserialize (S fuel) data this σ = (Fault AssertionFailed, σ).
Proof.
  intros E Hd Hne. cbn [Deserialize].
  apply bind_fault.
  rewrite (DEBUG_ASSERT_load this (λ n, begin_ n =? BIG_BAD_NUMBER)), Hd, E.
  by apply Z.eqb_neq in Hne as ->.
Qed.

(** C5, as amended.  In a debug build [Init] and [Deserialize] abort at
    their assertion when the node's [begin] is not the poison number, the
    state being as it was.  [set_children] does not compare its two
    arguments: with a null left and a non-null right pointer it completes
    in every build, treating the node as a leaf and storing the right
    pointer. *)
Theorem contract_violations data this σ n :
  heap σ !! this = Some n →
  (debug = true → begin_ n ≠ BIG_BAD_NUMBER →
   ∀ begin_in count_in,
     Init this begin_in count_in σ = (Fault AssertionFailed, σ)) ∧
  (debug = true → begin_ n ≠ BIG_BAD_NUMBER →
   ∀ fuel, Deserialize (S fuel) data this σ = (Fault AssertionFailed, σ)) ∧
  (∀ r, set_children data this Null (Ref r) σ =
     (Done tt,
      set_heap <[this := mkNode (bound_ n) Null (Ref r) (begin_ n) (count_ n)
                           (Statistic_Init data (begin_ n) (count_ n))]> σ)).
Proof.
  intros E. split_and!.
  - intros Hd Hne begin_in count_in. rewrite (Init_run _ _ _ _ _ E), Hd.
    by apply Z.eqb_neq in Hne as ->.
  - intros Hd Hne fuel. by eapply Deserialize_initialized.
  - intros r. by apply set_children_leaf_run.
Qed.

(** ** Leaves *)

Lemma repr_reach h p t q :
  repr h p t → reach h p q → ∃ t', repr h q t'.
Proof.
  intros Hrepr Hreach. revert t Hrepr.
  induction Hreach as [p|p n l q E Hl _ IH|p n r q E Hr _ IH];
    intros t Hrepr.
  - eauto.
  - destruct t as [b bg ct st|b bg ct st tl tr]; cbn in Hrepr.
    + rewrite Hrepr in E. injection E as <-. done.
    + destruct Hrepr as (pl & pr & E' & Htl & Htr).
      rewrite E' in E. injection E as <-. cbn in Hl. injection Hl as <-.
      eauto.
  - destruct t as [b bg ct st|b bg ct st tl tr]; cbn in Hrepr.
    + rewrite Hrepr in E. injection E as <-. done.
    + destruct Hrepr as (pl & pr & E' & Htl & Htr).
      rewrite E' in E. injection E as <-. cbn in Hr. injection Hr as <-.
      eauto.
Qed.

Lemma repr_both_or_none h p t n :
  repr h p t → h !! p = Some n →
  (left_ n = Null ∧ right_ n = Null) ∨
  (∃ l r, left_ n = Ref l ∧ right_ n = Ref r).
Proof.
  destruct t as [b bg ct st|b bg ct st tl tr]; cbn.
  - intros -> [= <-]. by left.
  - intros (pl & pr & -> & _) [= <-]. right. by exists pl, pr.
Qed.

(** C8, as amended.  [is_leaf] is true iff the left pointer is null.  For
    every node of a tree on the heap that is the same as both children
    being absent, and no such node has exactly one child; a successful
    [Deserialize] leaves such a tree at the node it decoded into.
    [set_children] stores the two pointers it is given: called with a null
    left pointer it completes whatever the right pointer is, so a non-null
    one leaves a node with exactly one child, which [is_leaf] calls a
    leaf. *)
Theorem is_leaf_children :
  (∀ n, is_leaf n = true ↔ left_ n = Null) ∧
  (∀ h p t q n,
     repr h p t → reach h p q → h !! q = Some n →
     (is_leaf n = true ↔ left_ n = Null ∧ right_ n = Null) ∧
     present (left_ n) = present (right_ n)) ∧
  (∀ data fuel this σ σ',
     Deserialize fuel data this σ = (Done tt, σ') →
     ∃ t, repr (heap σ') this t) ∧
  (∀ data this σ n right_in,
     heap σ !! this = Some n →
     ∃ σ' n',
       set_children data this Null right_in σ = (Done tt, σ') ∧
       heap σ' !! this = Some n' ∧
       left_ n' = Null ∧ right_ n' = right_in ∧ is_leaf n' = true).
Proof.
  split_and!.
  - intros n. unfold is_leaf. by destruct (left_ n).
  - intros h p t q n Hrepr Hreach E.
    destruct (repr_reach _ _ _ _ Hrepr Hreach) as (t' & Hq).
    unfold is_leaf, present.
    destruct (repr_both_or_none _ _ _ _ Hq E)
      as [[-> ->]|(l & r & -> & ->)]; cbn; naive_solver.
  - intros data fuel this σ σ' Hrun.
    destruct (Deserialize_done _ _ _ _ _ Hrun) as (t & Ht & _).
    exists t. by eapply tree_at_repr.
  - intros data this σ n right_in E.
    rewrite (set_children_leaf_run _ _ _ _ _ E).
    eexists _, _. split; [done|]. cbn. rewrite lookup_insert_eq. done.
Qed.

(** * Further properties of the code *)

(** ** Lookup: what it returns and what it leaves alone *)

Lemma find_step_readonly rec this begin_q count_q σ res σ' :
  (∀ a σ1 res1 σ1', rec a begin_q count_q σ1 = (res1, σ1') → σ1' = σ1) →
  find_step rec this begin_q count_q σ = (res, σ') → σ' = σ.
Proof.
  intros IH. unfold find_step.
  repeat (case_match; try by intros [= <- <-]); eauto.
Qed.

Lemma FindByBeginCount_const_readonly fuel : ∀ this begin_q count_q σ res σ',
  FindByBeginCount_const fuel this begin_q count_q σ = (res, σ') → σ' = σ.
Proof.
  induction fuel as [|fuel IH]; intros this begin_q count_q σ res σ'.
  - by intros [= <- <-].
  - rewrite FindByBeginCount_const_unfold. apply find_step_readonly.
    intros a σ1 res1 σ1'. apply IH.
Qed.

(** X1. [FindByBeginCount] changes nothing: whatever the outcome, a node, a
    null pointer, a failed assertion or a bad dereference, the heap and
    both streams are as they were; this holds for both overloads. *)
Theorem FindByBeginCount_readonly fuel this begin_q count_q σ res σ' :
  FindByBeginCount_const fuel this begin_q count_q σ = (res, σ') ∨
  FindByBeginCount fuel this begin_q count_q σ = (res, σ') →
  σ' = σ.
Proof.
  intros [E|E].
  - by eapply FindByBeginCount_const_readonly.
  - rewrite FindByBeginCount_overloads in E.
    by eapply FindByBeginCount_const_readonly.
Qed.

Lemma find_step_reach rec this begin_q count_q σ q σ' :
  (∀ a σ1 q1 σ1', rec a begin_q count_q σ1 = (Done (Ref q1), σ1') →
     reach (heap σ1) a q1) →
  find_step rec this begin_q count_q σ = (Done (Ref q), σ') →
  reach (heap σ) this q.
Proof.
  intros IH. unfold find_step.
  destruct (heap σ !! this) as [n|] eqn:E; [|done].
  destruct (debug && negb (begin_q >=? begin_ n)); [done|].
  destruct (debug && negb (count_q <=? count_ n)); [done|].
  destruct ((begin_ n =? begin_q) && (count_ n =? count_q)).
  { intros [= <- <-]. apply reach_here. }
  destruct (is_leaf n); [done|].
  destruct (right_ n) as [| |r] eqn:Er; try done.
  destruct (heap σ !! r) as [rn|]; [|done].
  destruct (begin_q <? begin_ rn).
  - destruct (left_ n) as [| |l] eqn:El; try done.
    destruct (heap σ !! l); [|done].
    intros Hrec. eapply reach_left; eauto.
  - intros Hrec. eapply reach_right; eauto.
Qed.

Lemma FindByBeginCount_const_reach fuel : ∀ this begin_q count_q σ q σ',
  FindByBeginCount_const fuel this begin_q count_q σ = (Done (Ref q), σ') →
  reach (heap σ) this q.
Proof.
  induction fuel as [|fuel IH]; intros this begin_q count_q σ q σ'; [done|].
  rewrite FindByBeginCount_const_unfold. apply find_step_reach.
  intros a σ1 q1 σ1'. apply IH.
Qed.

(** X2. A node returned by [FindByBeginCount] belongs to the structure
    below the node the search started from: it is that node or is reached
    from it through child pointers.  Both overloads. *)
Theorem FindByBeginCount_in_subtree fuel this begin_q count_q σ q σ' :
  FindByBeginCount_const fuel this begin_q count_q σ = (Done (Ref q), σ') ∨
  FindByBeginCount fuel this begin_q count_q σ = (Done (Ref q), σ') →
  reach (heap σ) this q.
Proof.
  intros [E|E].
  - by eapply FindByBeginCount_const_reach.
  - rewrite FindByBeginCount_overloads in E.
    by eapply FindByBeginCount_const_reach.
Qed.

(** X3. In a debug build a query that violates the precondition at the
    node the search starts from, [begin_q < begin_] or [count_q > count_],
    aborts at the assertion; nothing is searched. *)
Theorem FindByBeginCount_precondition fuel this begin_q count_q σ n :
  debug = true →
  heap σ !! this = Some n →
  begin_q < begin_ n ∨ count_q > count_ n →
  FindByBeginCount_const (S fuel) this begin_q count_q σ
    = (Fault AssertionFailed, σ) ∧
  FindByBeginCount (S fuel) this begin_q count_q σ
    = (Fault AssertionFailed, σ).
Proof.
  intros Hd E Hpre.
  rewrite FindByBeginCount_const_unfold, FindByBeginCount_unfold.
  unfold find_step. rewrite E, Hd. cbn.
  destruct (begin_q >=? begin_ n) eqn:Hb; [|done]. cbn.
  destruct (count_q <=? count_ n) eqn:Hc; [|done].
  apply Z.geb_le in Hb. apply Z.leb_le in Hc. lia.
Qed.

(** ** [Serialize] only appends *)

(** X4. [Serialize] never writes to a node and never reads the input: in
    every outcome the heap and the source are as before, and the sink is
    the old sink followed by what was written. *)
Theorem Serialize_only_appends fuel : ∀ this σ res σ',
  Serialize fuel this σ = (res, σ') →
  heap σ' = heap σ ∧ source σ' = source σ ∧
  ∃ out, sink σ' = sink σ ++ out.
Proof.
  induction fuel as [|fuel IH]; intros this [h snk src] res σ'.
  { intros [= <- <-]. split_and!; try done. exists []. by rewrite app_nil_r. }
  cbn [Serialize]. cbn.
  destruct (h !! this) as [n|] eqn:E; cbn.
  2: { intros [= <- <-]. split_and!; try done. exists [].
       by rewrite app_nil_r. }
  destruct (is_leaf n); cbn.
  { intros [= <- <-]. split_and!; try done. eexists.
    by rewrite <- !app_assoc. }
  destruct (left_ n) as [| |l]; cbn;
    try (intros [= <- <-]; split_and!; try done; eexists;
         by rewrite <- !app_assoc).
  destruct (h !! l) as [ln|] eqn:El; cbn;
    [|intros [= <- <-]; split_and!; try done; eexists;
      by rewrite <- !app_assoc].
  match goal with
  | |- context [Serialize fuel l ?σ1] =>
      destruct (Serialize fuel l σ1) as [[[]|f] [h1 snk1 src1]] eqn:Hl;
        apply IH in Hl as (Hh1 & Hs1 & out1 & Ho1); cbn in Hh1, Hs1, Ho1;
        subst h1 src1 snk1
  end.
  2: { intros [= <- <-]. split_and!; try done. eexists.
       by rewrite <- !app_assoc. }
  destruct (right_ n) as [| |r]; cbn;
    try (intros [= <- <-]; split_and!; try done; eexists;
         by rewrite <- !app_assoc).
  destruct (h !! r) as [rn|] eqn:Er; cbn;
    [|intros [= <- <-]; split_and!; try done; eexists;
      by rewrite <- !app_assoc].
  intros Hr. apply IH in Hr as (Hh2 & Hs2 & out2 & Ho2).
  cbn in Hh2, Hs2, Ho2. split_and!; try done.
  eexists. rewrite Ho2. by rewrite <- !app_assoc.
Qed.

(** ** Ranges of a valid tree *)

Lemma index_add_exact a b :
  - 2 ^ 31 ≤ a + b < 2 ^ 31 → index_add a b = a + b.
Proof.
  intros Hab. unfold index_add, wrap_index.
  rewrite Z.mod_small by lia. lia.
Qed.

Lemma in_range_spec bg ct :
  in_range bg ct = true ↔ 0 ≤ bg ∧ 1 ≤ ct ∧ bg + ct < 2 ^ 31.
Proof.
  unfold in_range.
  rewrite !andb_true_iff, !Z.leb_le, Z.ltb_lt. tauto.
Qed.

Lemma ranged_root t :
  ranged t = true → 0 ≤ t_begin t ∧ 1 ≤ t_count t ∧
                    t_begin t + t_count t < 2 ^ 31.
Proof.
  destruct t; cbn; rewrite ?andb_true_iff; intros H0; apply in_range_spec;
    tauto.
Qed.

(** In a valid tree over proper ranges the asserted sums do not wrap. *)
Lemma valid_ranged_node (b : Bound) bg ct (st : Statistic) l r :
  valid (TNode b bg ct st l r) = true →
  ranged (TNode b bg ct st l r) = true →
  ct = t_count l + t_count r ∧ t_begin l = bg ∧
  t_begin r = bg + t_count l ∧
  valid l = true ∧ valid r = true ∧ ranged l = true ∧ ranged r = true ∧
  0 ≤ bg ∧ 1 ≤ t_count l ∧ 1 ≤ t_count r ∧ bg + ct < 2 ^ 31.
Proof.
  intros Hv Hr. apply valid_node in Hv as (Hct & Hlb & Hrb & Hvl & Hvr).
  cbn in Hr. apply andb_true_iff in Hr as [Hr Hrr].
  apply andb_true_iff in Hr as [Hin Hrl].
  apply in_range_spec in Hin.
  pose proof (ranged_root _ Hrl). pose proof (ranged_root _ Hrr).
  rewrite index_add_exact in Hrb by lia.
  rewrite index_add_exact in Hct by lia.
  split_and!; try done; lia.
Qed.

Lemma ranges_bounds t : ∀ b c,
  valid t = true → ranged t = true → (b, c) ∈ ranges t →
  t_begin t ≤ b ∧ 1 ≤ c ∧ b + c ≤ t_begin t + t_count t.
Proof.
  induction t as [b0 bg ct st|b0 bg ct st l IHl r IHr]; intros b c Hv Hr Hin.
  - cbn in Hin. apply list_elem_of_singleton in Hin as [= -> ->].
    pose proof (ranged_root _ Hr). cbn in *. lia.
  - destruct (valid_ranged_node _ _ _ _ _ _ Hv Hr)
      as (Hct & Hlb & Hrb & Hvl & Hvr & Hrl & Hrr & ? & ? & ? & ?).
    cbn in Hin. cbn [t_begin t_count].
    apply elem_of_cons in Hin as [[= -> ->]|Hin]; [lia|].
    apply elem_of_app in Hin as [Hin|Hin].
    + specialize (IHl _ _ Hvl Hrl Hin). lia.
    + specialize (IHr _ _ Hvr Hrr Hin). lia.
Qed.

(** X5. "Every node is uniquely identified by these two numbers": in a
    valid tree over proper ranges (non-negative begin, at least one point
    per node, representable end) no two nodes have the same
    [(begin, count)]. *)
Theorem ranges_unique t :
  valid t = true → ranged t = true → NoDup (ranges t).
Proof.
  induction t as [b0 bg ct st|b0 bg ct st l IHl r IHr]; intros Hv Hr.
  - cbn. apply NoDup_singleton.
  - destruct (valid_ranged_node _ _ _ _ _ _ Hv Hr)
      as (Hct & Hlb & Hrb & Hvl & Hvr & Hrl & Hrr & ? & ? & ? & ?).
    cbn. apply NoDup_cons. split.
    + intros Hin. apply elem_of_app in Hin as [Hin|Hin].
      * pose proof (ranges_bounds _ _ _ Hvl Hrl Hin). lia.
      * pose proof (ranges_bounds _ _ _ Hvr Hrr Hin). lia.
    + apply NoDup_app. split_and!; [by apply IHl| |by apply IHr].
      intros [b c] Hinl Hinr.
      pose proof (ranges_bounds _ _ _ Hvl Hrl Hinl).
      pose proof (ranges_bounds _ _ _ Hvr Hrr Hinr). lia.
Qed.

Lemma reach_node_inv h p q (b : Bound) bg ct (st : Statistic) pl pr :
  h !! p = Some (mkNode b (Ref pl) (Ref pr) bg ct st) →
  reach h p q → q = p ∨ reach h pl q ∨ reach h pr q.
Proof.
  intros E Hreach. destruct Hreach as [p|p n l q E' Hl Hq|p n r q E' Hr Hq].
  - by left.
  - rewrite E in E'. injection E' as <-. cbn in Hl. injection Hl as <-.
    right. by left.
  - rewrite E in E'. injection E' as <-. cbn in Hr. injection Hr as <-.
    right. by right.
Qed.

Lemma reach_leaf_inv h p q (b : Bound) bg ct (st : Statistic) :
  h !! p = Some (mkNode b Null Null bg ct st) → reach h p q → q = p.
Proof.
  intros E Hreach. destruct Hreach as [p|p n l q E' Hl Hq|p n r q E' Hr Hq].
  - done.
  - rewrite E in E'. by injection E' as <-.
  - rewrite E in E'. by injection E' as <-.
Qed.

Lemma reach_ranges t : ∀ h p q n,
  repr h p t → reach h p q → h !! q = Some n →
  (begin_ n, count_ n) ∈ ranges t.
Proof.
  induction t as [b bg ct st|b bg ct st l IHl r IHr];
    intros h p q n Hrepr Hreach E; cbn in Hrepr.
  - rewrite (reach_leaf_inv _ _ _ _ _ _ _ Hrepr Hreach) in E.
    rewrite Hrepr in E. injection E as <-. cbn. by left.
  - destruct Hrepr as (pl & pr & Ep & Hl & Hr). cbn.
    destruct (reach_node_inv _ _ _ _ _ _ _ _ _ Ep Hreach) as [->|[Hq|Hq]].
    + rewrite Ep in E. injection E as <-. by left.
    + right. apply elem_of_app. left. by eapply IHl.
    + right. apply elem_of_app. right. by eapply IHr.
Qed.

Lemma FindByBeginCount_const_here fuel this σ n :
  heap σ !! this = Some n →
  FindByBeginCount_const (S fuel) this (begin_ n) (count_ n) σ
    = (Done (Ref this), σ).
Proof.
  intros E. rewrite FindByBeginCount_const_unfold. unfold find_step.
  rewrite E.
  replace (begin_ n >=? begin_ n) with true by (symmetry; apply Z.geb_le; lia).
  replace (count_ n <=? count_ n) with true by (symmetry; apply Z.leb_le; lia).
  by rewrite !Z.eqb_refl, !andb_false_r.
Qed.

Lemma FindByBeginCount_const_finds t : ∀ fuel p q n σ,
  repr (heap σ) p t →
  valid t = true → ranged t = true →
  reach (heap σ) p q → heap σ !! q = Some n →
  (height t ≤ fuel)%nat →
  FindByBeginCount_const fuel p (begin_ n) (count_ n) σ = (Done (Ref q), σ).
Proof.
  induction t as [b bg ct st|b bg ct st l IHl r IHr];
    intros fuel p q n σ Hrepr Hv Hr Hreach E Hfuel;
    (destruct fuel as [|fuel]; [cbn in Hfuel; lia|]); cbn in Hrepr, Hfuel.
  - rewrite (reach_leaf_inv _ _ _ _ _ _ _ Hrepr Hreach) in E |- *.
    rewrite Hrepr in E. injection E as <-.
    by apply FindByBeginCount_const_here.
  - destruct Hrepr as (pl & pr & Ep & Hl & Hrr).
    destruct (valid_ranged_node _ _ _ _ _ _ Hv Hr)
      as (Hct & Hlb & Hrb & Hvl & Hvr & Hrl & Hrgr & ? & ? & ? & ?).
    destruct (reach_node_inv _ _ _ _ _ _ _ _ _ Ep Hreach) as [->|[Hq|Hq]].
    { rewrite Ep in E. injection E as <-.
      by apply FindByBeginCount_const_here. }
    + pose proof (reach_ranges _ _ _ _ _ Hl Hq E) as Hin.
      pose proof (ranges_bounds _ _ _ Hvl Hrl Hin) as Hb.
      destruct (repr_root _ _ _ Hrr) as (rn & Er & _ & Hrbg & _).
      destruct (repr_root _ _ _ Hl) as (ln & El & _).
      rewrite FindByBeginCount_const_unfold. unfold find_step.
      rewrite Ep. cbn. rewrite Er, El, Hrbg.
      replace (begin_ n >=? bg) with true by (symmetry; apply Z.geb_le; lia).
      replace (count_ n <=? ct) with true by (symmetry; apply Z.leb_le; lia).
      replace (ct =? count_ n) with false by (symmetry; apply Z.eqb_neq; lia).
      replace (begin_ n <? t_begin r) with true
        by (symmetry; apply Z.ltb_lt; lia).
      rewrite !andb_false_r. cbn.
      apply IHl; try done. lia.
    + pose proof (reach_ranges _ _ _ _ _ Hrr Hq E) as Hin.
      pose proof (ranges_bounds _ _ _ Hvr Hrgr Hin) as Hb.
      destruct (repr_root _ _ _ Hrr) as (rn & Er & _ & Hrbg & _).
      rewrite FindByBeginCount_const_unfold. unfold find_step.
      rewrite Ep. cbn. rewrite Er, Hrbg.
      replace (begin_ n >=? bg) with true by (symmetry; apply Z.geb_le; lia).
      replace (count_ n <=? ct) with true by (symmetry; apply Z.leb_le; lia).
      replace (bg =? begin_ n) with false by (symmetry; apply Z.eqb_neq; lia).
      replace (begin_ n <? t_begin r) with false
        by (symmetry; apply Z.ltb_ge; lia).
      rewrite !andb_false_r. cbn. apply IHr; try done. lia.
Qed.

(** X6. Lookup finds every node.  In a valid tree over proper ranges,
    [FindByBeginCount] started at the root with the [begin] and [count] of
    any node of the tree returns that very node, in either build and
    either overload, in as many steps as the tree is high. *)
Theorem FindByBeginCount_finds t fuel p q n σ :
  repr (heap σ) p t →
  valid t = true → ranged t = true →
  reach (heap σ) p q → heap σ !! q = Some n →
  (height t ≤ fuel)%nat →
  FindByBeginCount_const fuel p (begin_ n) (count_ n) σ = (Done (Ref q), σ) ∧
  FindByBeginCount fuel p (begin_ n) (count_ n) σ = (Done (Ref q), σ).
Proof.
  intros Hrepr Hv Hr Hreach E Hfuel. split.
  - by eapply FindByBeginCount_const_finds.
  - rewrite FindByBeginCount_overloads. by eapply FindByBeginCount_const_finds.
Qed.

(** ** The children tile the parent's range *)

Lemma wrap_index_add_l a b : wrap_index (wrap_index a + b) = wrap_index (a + b).
Proof.
  unfold wrap_index.
  replace ((a + 2 ^ 31) mod 2 ^ 32 - 2 ^ 31 + b + 2 ^ 31)
    with ((a + 2 ^ 31) mod 2 ^ 32 + b) by lia.
  rewrite Zplus_mod_idemp_l. f_equal. f_equal. lia.
Qed.

Lemma index_add_assoc a b c :
  index_add (index_add a b) c = index_add a (index_add b c).
Proof.
  unfold index_add. rewrite wrap_index_add_l.
  rewrite (Z.add_comm a (wrap_index (b + c))), wrap_index_add_l.
  f_equal. lia.
Qed.

(** X7. After a [set_children] with two children that passed the
    assertions of a debug build, the children tile the range of the node:
    the left child begins where the node begins, the right child begins
    where the left one ends, and ends where the node ends ([end()] being
    [begin_ + count_] in machine arithmetic, wrap-around included). *)
Theorem set_children_tiles data this l r σ σ' n ln rn :
  debug = true →
  heap σ !! this = Some n →
  heap σ !! l = Some ln → heap σ !! r = Some rn →
  l ≠ this → r ≠ this →
  set_children data this (Ref l) (Ref r) σ = (Done tt, σ') →
  ∃ n', heap σ' !! this = Some n' ∧
        heap σ' !! l = Some ln ∧ heap σ' !! r = Some rn ∧
        left n' = Ref l ∧ right n' = Ref r ∧
        begin ln = begin n' ∧
        end_ ln = begin rn ∧
        end_ rn = end_ n'.
Proof.
  intros Hd E El Er Hl Hr.
  rewrite (set_children_internal_run data this l r σ n ln rn) by done.
  rewrite Hd. cbn. destruct (contiguous n ln rn) eqn:Hc; [|done].
  intros [= <-]. cbn. rewrite lookup_insert_eq, !lookup_insert_ne by done.
  eexists. split_and!; try done; cbn.
  all: unfold contiguous in Hc;
    apply andb_true_iff in Hc as [Hc Hc3];
    apply andb_true_iff in Hc as [Hc1 Hc2];
    apply Z.eqb_eq in Hc1, Hc2, Hc3; unfold begin, end_; cbn.
  - done.
  - by rewrite Hc3, Hc2.
  - by rewrite Hc1, Hc3, index_add_assoc.
Qed.

(** X8. An empty left child cannot be found from above.  If the left child
    of a node has count 0 and the contiguity conditions hold, a lookup that
    satisfies the precondition at the node and does not match the node
    itself always continues in the right child. *)
Theorem FindByBeginCount_skips_empty_left
    fuel this l r σ n ln rn begin_q count_q :
  heap σ !! this = Some n →
  left_ n = Ref l → right_ n = Ref r →
  heap σ !! l = Some ln → heap σ !! r = Some rn →
  contiguous n ln rn = true →
  count_ ln = 0 →
  - 2 ^ 31 ≤ begin_ n < 2 ^ 31 →
  begin_q >= begin_ n → count_q <= count_ n →
  (begin_q, count_q) ≠ (begin_ n, count_ n) →
  FindByBeginCount_const (S fuel) this begin_q count_q σ
    = FindByBeginCount_const fuel r begin_q count_q σ ∧
  FindByBeginCount (S fuel) this begin_q count_q σ
    = FindByBeginCount fuel r begin_q count_q σ.
Proof.
  intros E Hl Hr El Er Hc H0 Hrange Hb Hcq Hne.
  rewrite FindByBeginCount_const_unfold, FindByBeginCount_unfold.
  unfold find_step. rewrite E. unfold is_leaf. rewrite Hl, Hr, Er. cbn.
  replace (begin_q >=? begin_ n) with true by (symmetry; apply Z.geb_le; lia).
  replace (count_q <=? count_ n) with true by (symmetry; apply Z.leb_le; lia).
  rewrite !andb_false_r.
  assert ((begin_ n =? begin_q) && (count_ n =? count_q) = false) as ->.
  { apply andb_false_iff.
    destruct (decide (begin_ n = begin_q)) as [Hq|]; [|left; by apply Z.eqb_neq].
    right. apply Z.eqb_neq. intros Hq'. apply Hne. by rewrite Hq, Hq'. }
  unfold contiguous in Hc.
  apply andb_true_iff in Hc as [_ Hc3]. apply Z.eqb_eq in Hc3.
  rewrite H0, index_add_exact in Hc3 by lia.
  replace (begin_q <? begin_ rn) with false
    by (symmetry; apply Z.ltb_ge; lia).
  done.
Qed.

(** ** Destruction *)

Lemma dtor_unfold fuel this σ :
  BinarySpaceTree_dtor (S fuel) this σ =
  (n <- load this ;;
   (if negb (is_leaf n) then
      delete_BinarySpaceTree fuel (left_ n) ;;
      n' <- load this ;;
      delete_BinarySpaceTree fuel (right_ n')
    else ret tt) ;;
   DEBUG_ONLY (modify this (set_begin_ BIG_BAD_NUMBER)) ;;
   DEBUG_ONLY (modify this (set_count_ BIG_BAD_NUMBER)) ;;
   DEBUG_POISON_PTR this set_left_ ;;
   DEBUG_POISON_PTR this set_right_) σ.
Proof. reflexivity. Qed.

Lemma dtor_poisons this σ n :
  heap σ !! this = Some n →
  (DEBUG_ONLY (modify this (set_begin_ BIG_BAD_NUMBER)) ;;
   DEBUG_ONLY (modify this (set_count_ BIG_BAD_NUMBER)) ;;
   DEBUG_POISON_PTR this set_left_ ;;
   DEBUG_POISON_PTR this set_right_) σ
  = (Done tt, set_heap <[this := destroyed n]> σ).
Proof.
  intros E. destruct σ as [h snk src]. cbn in E.
  unfold DEBUG_POISON_PTR, DEBUG_ONLY, destroyed.
  destruct debug; run; [done|]. by rewrite insert_id.
Qed.

Lemma owns_root_in t h p F : owns h p t F → p ∈ F.
Proof.
  destruct t; cbn.
  - intros [_ ->]. set_solver.
  - intros (pl & pr & Fl & Fr & _ & _ & _ & _ & _ & _ & ->). set_solver.
Qed.

Lemma owns_frame t : ∀ h h' p F,
  (∀ a, a ∈ F → h' !! a = h !! a) → owns h p t F → owns h' p t F.
Proof.
  induction t as [b bg ct st|b bg ct st l IHl r IHr]; intros h h' p F Hagree;
    cbn.
  - intros [E ->]. split; [|done]. rewrite Hagree; [done|set_solver].
  - intros (pl & pr & Fl & Fr & E & Hl & Hr & Hpl & Hpr & Hdisj & ->).
    exists pl, pr, Fl, Fr. split_and!; try done.
    + rewrite Hagree; [done|set_solver].
    + eapply IHl; [|exact Hl]. intros a Ha. apply Hagree. set_solver.
    + eapply IHr; [|exact Hr]. intros a Ha. apply Hagree. set_solver.
Qed.

Lemma owns_repr t : ∀ h p F, owns h p t F → repr h p t.
Proof.
  induction t as [b bg ct st|b bg ct st l IHl r IHr]; intros h p F; cbn.
  - by intros [E _].
  - intros (pl & pr & Fl & Fr & E & Hl & Hr & _). exists pl, pr. eauto.
Qed.

Lemma owns_root t h p F :
  owns h p t F → ∃ n, h !! p = Some n ∧ is_leaf n = t_is_leaf t.
Proof.
  intros Ho. destruct (repr_root _ _ _ (owns_repr _ _ _ _ Ho))
    as (n & E & _ & _ & _ & _ & Hleaf). eauto.
Qed.

Lemma dtor_owns t : ∀ fuel p F σ,
  owns (heap σ) p t F →
  (height t ≤ fuel)%nat →
  ∃ h' n,
    BinarySpaceTree_dtor fuel p σ = (Done tt, mkState h' (sink σ) (source σ)) ∧
    heap σ !! p = Some n ∧ h' !! p = Some (destroyed n) ∧
    (∀ a, a ∈ F → a ≠ p → h' !! a = None) ∧
    (∀ a, a ∉ F → h' !! a = heap σ !! a).
Proof.
  induction t as [b bg ct st|b bg ct st l IHl r IHr];
    intros fuel p F [h snk src] Ho Hfuel;
    (destruct fuel as [|fuel]; [cbn in Hfuel; lia|]);
    cbn in Ho, Hfuel; rewrite dtor_unfold.
  - destruct Ho as [E ->].
    rewrite (bind_done _ _ _ _ _ (load_some p (mkState h snk src) _ E)).
    cbn [is_leaf left_ is_null negb].
    rewrite (bind_done _ _ (mkState h snk src) tt _ eq_refl).
    rewrite (dtor_poisons p (mkState h snk src) _ E). cbn.
    eexists _, _. split_and!; try done.
    + apply lookup_insert_eq.
    + intros a Ha Hne. set_solver.
    + intros a Ha. apply lookup_insert_ne. set_solver.
  - destruct Ho as (pl & pr & Fl & Fr & E & Hl & Hr & Hpl & Hpr & Hdisj & ->).
    pose proof (owns_root_in _ _ _ _ Hl) as Hinl.
    pose proof (owns_root_in _ _ _ _ Hr) as Hinr.
    assert (pl ≠ p) as Hnel by (intros ->; done).
    assert (pr ≠ p) as Hner by (intros ->; done).
    assert (pl ≠ pr) as Hlr by (intros ->; set_solver).
    rewrite (bind_done _ _ _ _ _ (load_some p (mkState h snk src) _ E)).
    cbn [is_leaf left_ right_ is_null negb].
    destruct (IHl fuel pl Fl (mkState h snk src) Hl ltac:(lia))
      as (h1 & nl & Hrunl & El & El1 & Hgone1 & Hkept1).
    cbn in Hrunl, El, Hkept1.
    assert (h1 !! p = Some (mkNode b (Ref pl) (Ref pr) bg ct st)) as Ep1
      by (by rewrite Hkept1).
    assert (owns (delete pl h1) pr r Fr) as Hr1.
    { eapply owns_frame; [|exact Hr]. intros a Ha.
      rewrite lookup_delete_ne by set_solver. apply Hkept1. set_solver. }
    destruct (IHr fuel pr Fr (mkState (delete pl h1) snk src) Hr1 ltac:(lia))
      as (h2 & nr & Hrunr & Er & Er2 & Hgone2 & Hkept2).
    cbn in Hrunr, Er, Hkept2.
    assert (h2 !! p = Some (mkNode b (Ref pl) (Ref pr) bg ct st)) as Ep2.
    { rewrite Hkept2 by done. by rewrite lookup_delete_ne. }
    assert (delete pr h2 !! p = Some (mkNode b (Ref pl) (Ref pr) bg ct st))
      as Ep3 by (by rewrite lookup_delete_ne).
    erewrite bind_done; last first.
    { cbn. rewrite Hrunl. cbn. rewrite El1. cbn.
      rewrite lookup_delete_ne, Ep1 by done. cbn.
      rewrite Hrunr. cbn. rewrite Er2. cbn. reflexivity. }
    rewrite (dtor_poisons p (mkState (delete pr h2) snk src) _ Ep3). cbn.
    eexists _, _. split_and!; try done.
    + apply lookup_insert_eq.
    + intros a Ha Hne. rewrite lookup_insert_ne by done.
      destruct (decide (a = pr)) as [->|Hapr]; [apply lookup_delete_eq|].
      rewrite lookup_delete_ne by done.
      destruct (decide (a ∈ Fr)) as [Hr'|Hr']; [by apply Hgone2|].
      rewrite Hkept2 by done.
      destruct (decide (a = pl)) as [->|Hapl]; [apply lookup_delete_eq|].
      rewrite lookup_delete_ne by done. apply Hgone1; [set_solver|done].
    + intros a Ha. rewrite lookup_insert_ne by set_solver.
      rewrite lookup_delete_ne by set_solver.
      rewrite Hkept2 by set_solver.
      rewrite lookup_delete_ne by set_solver.
      apply Hkept1. set_solver.
Qed.

(** X9. [delete] on the root of a tree whose nodes are all distinct objects
    releases every node of the tree exactly once: it completes, afterwards
    none of the tree's nodes is allocated, and every other node of the heap
    is as it was.  As much recursion as the tree is high suffices. *)
Theorem delete_releases_tree t fuel p F σ :
  owns (heap σ) p t F →
  (height t ≤ fuel)%nat →
  ∃ h',
    delete_BinarySpaceTree fuel (Ref p) σ
      = (Done tt, mkState h' (sink σ) (source σ)) ∧
    (∀ a, a ∈ F → h' !! a = None) ∧
    (∀ a, a ∉ F → h' !! a = heap σ !! a).
Proof.
  intros Ho Hfuel.
  destruct (dtor_owns t fuel p F σ Ho Hfuel)
    as (h1 & n & Hrun & E & E1 & Hgone & Hkept).
  pose proof (owns_root_in _ _ _ _ Ho) as Hin.
  exists (delete p h1). split_and!.
  - cbn. rewrite Hrun. cbn. by rewrite E1.
  - intros a Ha. destruct (decide (a = p)) as [->|Hne].
    + apply lookup_delete_eq.
    + rewrite lookup_delete_ne by done. by apply Hgone.
  - intros a Ha. rewrite lookup_delete_ne by set_solver. by apply Hkept.
Qed.

(** X10. In a debug build a node must be given its children (or none)
    before it is destroyed: after construction and [Init] the child pointers
    still hold the poison pattern, [is_leaf] takes the node for an internal
    one, and the destructor deletes through the poisoned pointer. *)
Theorem dtor_before_set_children fuel begin_in count_in σ :
  debug = true →
  ∃ σ',
    (p <- new_BinarySpaceTree ;;
     Init p begin_in count_in ;;
     BinarySpaceTree_dtor (S fuel) p) σ = (Fault UndefinedBehaviour, σ').
Proof.
  intros Hd. destruct σ as [h snk src].
  set (p := fresh (dom h)).
  assert (new_BinarySpaceTree (mkState h snk src)
          = (Done p, mkState (<[p := BinarySpaceTree_ctor]> h) snk src))
    as Hnew by reflexivity.
  rewrite (bind_done _ _ _ _ _ Hnew).
  erewrite bind_done; last first.
  { rewrite (Init_run p _ _ _ BinarySpaceTree_ctor)
      by apply lookup_insert_eq.
    rewrite (ctor_fresh Hd), Z.eqb_refl, andb_false_r. reflexivity. }
  rewrite dtor_unfold. cbn. rewrite insert_insert_eq, lookup_insert_eq, Hd.
  cbn. eauto.
Qed.

(** X11. The destructor looks at [left_] alone: for a node with a null left
    pointer it deletes nothing.  A right child attached by
    [set_children(data, NULL, r)] survives the destruction of its parent,
    as does every other node. *)
Theorem dtor_keeps_right_child data fuel this r σ n rn :
  heap σ !! this = Some n →
  heap σ !! r = Some rn →
  r ≠ this →
  ∃ σ',
    (set_children data this Null (Ref r) ;;
     BinarySpaceTree_dtor (S fuel) this) σ = (Done tt, σ') ∧
    heap σ' !! r = Some rn ∧
    (∀ a, a ≠ this → heap σ' !! a = heap σ !! a).
Proof.
  intros E Er Hne. destruct σ as [h snk src]. cbn in E, Er.
  rewrite (bind_done _ _ _ _ _
             (set_children_leaf_run data this (Ref r)
                (mkState h snk src) n E)).
  rewrite dtor_unfold. cbn [set_heap heap sink source].
  erewrite bind_done; last by (apply load_some; apply lookup_insert_eq).
  cbn [is_leaf left_ is_null negb].
  rewrite (bind_done _ _ _ tt _ eq_refl).
  erewrite dtor_poisons by apply lookup_insert_eq.
  eexists. split; [done|]. cbn. rewrite insert_insert_eq. split.
  - by rewrite lookup_insert_ne.
  - intros a Ha. by rewrite lookup_insert_ne.
Qed.

(** X12. The destructor takes the two children for distinct objects: if
    both child pointers of a node point to the same leaf, the leaf is
    destroyed and released through [left_], and the [delete right_] that
    follows works on storage that is no longer allocated. *)
Theorem dtor_shared_child fuel this c σ n cn :
  heap σ !! this = Some n →
  left_ n = Ref c → right_ n = Ref c →
  c ≠ this →
  heap σ !! c = Some cn → left_ cn = Null →
  ∃ σ',
    BinarySpaceTree_dtor (S (S fuel)) this σ = (Fault UndefinedBehaviour, σ').
Proof.
  intros E Hl Hr Hne Ec Hcl. destruct σ as [h snk src]. cbn in E, Ec.
  rewrite dtor_unfold.
  rewrite (bind_done _ _ _ _ _ (load_some this (mkState h snk src) _ E)).
  unfold is_leaf. rewrite Hl. cbn [is_null negb].
  eexists. apply bind_fault.
  erewrite bind_done; last first.
  { cbn [delete_BinarySpaceTree].
    erewrite bind_done; last first.
    { rewrite dtor_unfold.
      rewrite (bind_done _ _ _ _ _ (load_some c (mkState h snk src) _ Ec)).
      unfold is_leaf. rewrite Hcl. cbn [is_null negb].
      rewrite (bind_done _ _ (mkState h snk src) tt _ eq_refl).
      apply (dtor_poisons c (mkState h snk src) _ Ec). }
    cbn. rewrite lookup_insert_eq. reflexivity. }
  cbn. rewrite lookup_delete_ne, lookup_insert_ne, E by done. cbn.
  rewrite Hr. cbn. rewrite lookup_delete_eq. reflexivity.
Qed.

(** ** Decoding, then destroying *)

Lemma children_owned h0 this nh c h1 h2 tl tr nf Fl Fr :
  let l := fresh (dom h0) in
  let r := fresh (dom h1) in
  h0 !! this = Some nh →
  owns h1 l tl Fl → Fl = {[l]} ∪ (dom h1 ∖ dom (<[l := c]> h0)) →
  (∀ a, a ∈ dom (<[l := c]> h0) → a ≠ l → h1 !! a = <[l := c]> h0 !! a) →
  dom (<[l := c]> h0) ⊆ dom h1 →
  owns h2 r tr Fr → Fr = {[r]} ∪ (dom h2 ∖ dom (<[r := c]> h1)) →
  (∀ a, a ∈ dom (<[r := c]> h1) → a ≠ r → h2 !! a = <[r := c]> h1 !! a) →
  dom (<[r := c]> h1) ⊆ dom h2 →
  l ≠ this ∧ r ≠ this ∧ h2 !! this = Some nh ∧
  owns (<[this := nf]> h2) l tl Fl ∧
  owns (<[this := nf]> h2) r tr Fr ∧
  (this ∉ Fl) ∧ (this ∉ Fr) ∧ Fl ## Fr ∧
  {[this]} ∪ Fl ∪ Fr = {[this]} ∪ (dom (<[this := nf]> h2) ∖ dom h0) ∧
  (∀ a, a ∈ dom h0 → a ≠ this → <[this := nf]> h2 !! a = h0 !! a) ∧
  dom h0 ⊆ dom (<[this := nf]> h2).
Proof.
  intros l r E Hl HFl Hfr1 Hdom1 Hr HFr Hfr2 Hdom2.
  assert (l ∉ dom h0) as Hlfresh by apply is_fresh.
  assert (r ∉ dom h1) as Hrfresh by apply is_fresh.
  assert (this ∈ dom h0) as Hthis by (apply elem_of_dom; eauto).
  rewrite dom_insert_L in Hdom1, Hdom2, Hfr1, Hfr2, HFl, HFr.
  assert (l ≠ this) as Hlt by (intros <-; done).
  assert (r ≠ this) as Hrt by (intros <-; set_solver).
  assert (l ≠ r) as Hlr by (intros <-; set_solver).
  assert (∀ a, a ∈ dom h1 → h2 !! a = h1 !! a) as Hfr2'.
  { intros a Ha. rewrite Hfr2 by set_solver.
    apply lookup_insert_ne. set_solver. }
  assert (∀ a, a ∈ dom h0 → h1 !! a = h0 !! a) as Hfr1'.
  { intros a Ha. rewrite Hfr1 by set_solver.
    apply lookup_insert_ne. set_solver. }
  assert (Fl ⊆ dom h1) as HFl1 by (subst Fl; set_solver).
  assert (this ∉ Fl) as HtFl by (subst Fl; set_solver).
  assert (this ∉ Fr) as HtFr by (subst Fr; set_solver).
  split_and!; try done.
  - rewrite Hfr2', Hfr1' by set_solver. done.
  - eapply owns_frame; [|exact Hl]. intros a Ha.
    rewrite lookup_insert_ne by set_solver. apply Hfr2'. set_solver.
  - eapply owns_frame; [|exact Hr]. intros a Ha.
    rewrite lookup_insert_ne; [done|]. set_solver.
  - subst Fl Fr. set_solver.
  - rewrite dom_insert_L. subst Fl Fr.
    apply set_eq. intros a.
    destruct (decide (a ∈ dom h0)), (decide (a ∈ dom h1)),
      (decide (a = l)), (decide (a = r)), (decide (a = this));
      set_solver.
  - intros a Ha Hne. rewrite lookup_insert_ne by done.
    rewrite Hfr2', Hfr1' by set_solver. done.
  - rewrite dom_insert_L. set_solver.
Qed.

Lemma Deserialize_done_owns data fuel : ∀ this σ σ',
  Deserialize fuel data this σ = (Done tt, σ') →
  ∃ t F,
    owns (heap σ') this t F ∧
    F = {[this]} ∪ (dom (heap σ') ∖ dom (heap σ)) ∧
    (∀ a, a ∈ dom (heap σ) → a ≠ this → heap σ' !! a = heap σ !! a) ∧
    dom (heap σ) ⊆ dom (heap σ') ∧
    (height t ≤ fuel)%nat.
Proof.
  induction fuel as [|fuel IH]; intros this [h snk src] σ' Hrun; [done|].
  cbn [Deserialize] in Hrun.
  apply bind_done_inv in Hrun as ([] & σ1 & H1 & Hrun).
  apply DEBUG_ASSERT_load_inv in H1 as [-> _].
  apply bind_done_inv in Hrun as (b & σ1 & H1 & Hrun).
  apply Get_with_done_inv in H1 as (s1 & _ & ->).
  apply bind_done_inv in Hrun as ([] & σ1 & H1 & Hrun).
  apply modify_done_inv in H1 as (n0 & E & ->). cbn in E.
  apply bind_done_inv in Hrun as (bg & σ1 & H1 & Hrun).
  apply Get_index_done_inv in H1 as (s2 & _ & ->).
  apply bind_done_inv in Hrun as ([] & σ1 & H1 & Hrun).
  apply modify_done_inv in H1 as (n1 & E1 & ->). cbn in E1.
  rewrite lookup_insert_eq in E1. injection E1 as <-.
  apply bind_done_inv in Hrun as (ct & σ1 & H1 & Hrun).
  apply Get_index_done_inv in H1 as (s3 & _ & ->).
  apply bind_done_inv in Hrun as ([] & σ1 & H1 & Hrun).
  apply modify_done_inv in H1 as (n1 & E1 & ->). cbn in E1.
  rewrite lookup_insert_eq in E1. injection E1 as <-.
  apply bind_done_inv in Hrun as (children & σ1 & H1 & Hrun).
  apply Get_bool_done_inv in H1 as (s4 & _ & ->).
  apply bind_done_inv in Hrun as ([pl pr] & σ1 & H1 & Hrun).
  cbn in H1. rewrite !insert_insert_eq in H1.
  set (nh := mkNode b (left_ n0) (right_ n0) bg ct (stat_ n0)) in *.
  set (h0 := <[this := nh]> h) in *.
  assert (h0 !! this = Some nh) as E0 by apply lookup_insert_eq.
  assert (dom h0 = dom h) as Hdom0.
  { unfold h0. rewrite dom_insert_L.
    assert (this ∈ dom h) by (apply elem_of_dom; eauto). set_solver. }
  destruct children.
  - apply bind_done_inv in H1 as (l & σ2 & Hnew & H1).
    cbn in Hnew. injection Hnew as <- <-.
    apply bind_done_inv in H1 as ([] & [h1 snk1 src1] & Hl & H1).
    apply IH in Hl as (tl & Fl & Htl & HFl & Hfr1 & Hdom1 & Hhl).
    cbn in Htl, HFl, Hfr1, Hdom1.
    apply bind_done_inv in H1 as (r & σ3 & Hnew & H1).
    cbn in Hnew. injection Hnew as <- <-.
    apply bind_done_inv in H1 as ([] & [h2 snk2 src2] & Hr & H1).
    apply IH in Hr as (tr & Fr & Htr & HFr & Hfr2 & Hdom2 & Hhr).
    cbn in Htr, HFr, Hfr2, Hdom2.
    cbn in H1. injection H1 as <- <- <-. cbn [fst snd] in Hrun.
    pose (nf := mkNode b (Ref (fresh (dom h0))) (Ref (fresh (dom h1))) bg ct
            (Statistic_Init_children data bg ct (t_stat tl) (t_stat tr))).
    destruct (children_owned h0 this nh BinarySpaceTree_ctor h1 h2
                tl tr nf Fl Fr E0 Htl HFl Hfr1 Hdom1 Htr HFr Hfr2 Hdom2)
      as (Hlt & Hrt & E2 & Htl' & Htr' & HtFl & HtFr & Hdisj & HF & Hfr & Hdom).
    destruct (repr_root _ _ _ (owns_repr _ _ _ _ Htl'))
      as (ln & El & _ & _ & _ & Hsl & _).
    destruct (repr_root _ _ _ (owns_repr _ _ _ _ Htr'))
      as (rn & Er & _ & _ & _ & Hsr & _).
    rewrite lookup_insert_ne in El, Er by done.
    rewrite (set_children_internal_run data this _ _ _ nh ln rn) in Hrun
      by done.
    destruct (debug && negb (contiguous nh ln rn)) eqn:Hc; [done|].
    injection Hrun as <-. cbn. rewrite Hsl, Hsr. fold nf.
    rewrite Hdom0 in *.
    exists (TNode b bg ct
              (Statistic_Init_children data bg ct (t_stat tl) (t_stat tr))
              tl tr), ({[this]} ∪ Fl ∪ Fr).
    split_and!.
    + cbn. exists (fresh (dom h)), (fresh (dom h1)), Fl, Fr.
      split_and!; try done.
      rewrite lookup_insert_eq. unfold nf. by rewrite Hdom0.
    + done.
    + intros a Ha Hne. rewrite Hfr by done. by apply lookup_insert_ne.
    + done.
    + cbn. lia.
  - injection H1 as <- <- <-. cbn [fst snd] in Hrun.
    rewrite (set_children_leaf_run _ _ _ _ nh) in Hrun by done.
    injection Hrun as <-. cbn. fold h0.
    exists (TLeaf b bg ct (Statistic_Init data bg ct)), {[this]}. cbn.
    unfold h0. rewrite insert_insert_eq. split_and!; try done.
    + apply lookup_insert_eq.
    + rewrite dom_insert_L. set_solver.
    + intros a _ Hne. by apply lookup_insert_ne.
    + rewrite dom_insert_L. set_solver.
    + lia.
Qed.

(** X13. Whatever [Deserialize] built, the destructor takes down again.
    After a successful [Deserialize] into [this], the nodes it allocated
    are all distinct objects, and running the destructor on [this] with the
    same recursion depth completes and releases every one of them: the
    heap then holds exactly the addresses it held before decoding, and
    every node other than [this] is as it was. *)
Theorem Deserialize_then_destroy data fuel this σ σ' :
  Deserialize fuel data this σ = (Done tt, σ') →
  ∃ σ'',
    BinarySpaceTree_dtor fuel this σ' = (Done tt, σ'') ∧
    dom (heap σ'') = dom (heap σ) ∧
    (∀ a, a ≠ this → heap σ'' !! a = heap σ !! a).
Proof.
  intros Hrun.
  destruct (Deserialize_done_owns _ _ _ _ _ Hrun)
    as (t & F & Ho & HF & Hfr & Hdom & Hh).
  destruct (dtor_owns t fuel this F σ' Ho Hh)
    as (h'' & n & Hd & E & E' & Hgone & Hkept).
  assert (this ∈ dom (heap σ)) as Hthis.
  { destruct fuel as [|fuel']; [done|]. cbn [Deserialize] in Hrun.
    apply bind_done_inv in Hrun as ([] & σ1 & H1 & Hrun).
    apply DEBUG_ASSERT_load_inv in H1 as [-> _].
    apply bind_done_inv in Hrun as (b & σ1 & H1 & Hrun).
    apply Get_with_done_inv in H1 as (s1 & _ & ->).
    apply bind_done_inv in Hrun as ([] & σ1 & H1 & Hrun).
    apply modify_done_inv in H1 as (n0 & E0 & ->). cbn in E0.
    apply elem_of_dom. eauto. }
  assert (∀ a, a ≠ this → h'' !! a = heap σ !! a) as Hsame.
  { intros a Hne. destruct (decide (a ∈ F)) as [Ha|Ha].
    - rewrite Hgone by done. symmetry. apply not_elem_of_dom. set_solver.
    - rewrite Hkept by done.
      destruct (decide (a ∈ dom (heap σ))) as [Hin|Hin]; [by apply Hfr|].
      assert (a ∉ dom (heap σ')) as Hn by set_solver.
      apply not_elem_of_dom in Hn, Hin. by rewrite Hn, Hin. }
  eexists. split; [exact Hd|]. cbn. split; [|done].
  apply set_eq. intros a. rewrite !elem_of_dom.
  destruct (decide (a = this)) as [->|Hne].
  - rewrite E'. apply elem_of_dom in Hthis. split; eauto.
  - by rewrite Hsame.
Qed.

(** ** What decoding checks *)

Lemma Deserialize_encode_invalid {RT : BoundRoundTrip Bound} data t :
  ∀ fuel this σ rest n0,
  (height t ≤ fuel)%nat →
  heap σ !! this = Some n0 →
  debug = true → begin_ n0 = BIG_BAD_NUMBER →
  valid t = false →
  source σ = encode t ++ rest →
  ∃ σ', Deserialize fuel data this σ = (Fault AssertionFailed, σ').
Proof.
  induction t as [b bg ct st|b bg ct st l IHl r IHr];
    intros fuel this [h snk src] rest n0 Hfuel E Hd Hfresh Hinv Hsrc; [done|].
  destruct fuel as [|fuel]; [cbn in Hfuel; lia|].
  cbn in Hfuel, Hsrc. cbn [Deserialize]. subst src.
  rewrite (bind_done _ _ _ _ _
             (DEBUG_ASSERT_fresh _ _ _ E (λ _, Hfresh))).
  cbn in E. rewrite <- !app_assoc. run. rewrite bound_round_trip. run.
  rewrite <- app_assoc.
  set (nh := mkNode b (left_ n0) (right_ n0) bg ct (stat_ n0)).
  set (h0 := <[this := nh]> h).
  assert (h0 !! this = Some nh) as E0 by apply lookup_insert_eq.
  destruct (valid l) eqn:Hvl.
  2: { match goal with
       | |- context [Deserialize fuel data ?pl ?σl] =>
           destruct (IHl fuel pl σl (encode r ++ rest) BinarySpaceTree_ctor)
             as (σ1 & ->);
             [lia | apply lookup_insert_eq | done | by apply ctor_fresh
             | done | done |]
       end.
       cbn. eauto. }
  match goal with
  | |- context [Deserialize fuel data ?pl ?σl] =>
      destruct (Deserialize_encode data l fuel pl σl (encode r ++ rest)
                  BinarySpaceTree_ctor)
        as (h1 & -> & Htl & Hfr1 & Hdom1);
        [lia | apply lookup_insert_eq | apply ctor_fresh | done | done |]
  end.
  cbn in Htl, Hfr1, Hdom1. run.
  destruct (valid r) eqn:Hvr.
  2: { match goal with
       | |- context [Deserialize fuel data ?pr ?σr] =>
           destruct (IHr fuel pr σr rest BinarySpaceTree_ctor)
             as (σ2 & ->);
             [lia | apply lookup_insert_eq | done | by apply ctor_fresh
             | done | done |]
       end.
       cbn. eauto. }
  match goal with
  | |- context [Deserialize fuel data ?pr ?σr] =>
      destruct (Deserialize_encode data r fuel pr σr rest
                  BinarySpaceTree_ctor)
        as (h2 & -> & Htr & Hfr2 & Hdom2);
        [lia | apply lookup_insert_eq | apply ctor_fresh | done | done |]
  end.
  cbn in Htr, Hfr2, Hdom2. run.
  pose (nf := nh).
  destruct (children_assembled h0 this nh BinarySpaceTree_ctor h1 h2
              (rebuild data l) (rebuild data r) nf E0 Htl Hfr1 Hdom1
              Htr Hfr2 Hdom2)
    as (Hlt & Hrt & E2 & Htl' & Htr' & Hfr & Hdom).
  destruct (repr_root _ _ _ (tree_at_repr _ _ _ _ Htl'))
    as (ln & El & _ & Hbl & Hcl & Hsl & _).
  destruct (repr_root _ _ _ (tree_at_repr _ _ _ _ Htr'))
    as (rn & Er & _ & Hbr & Hcr & Hsr & _).
  rewrite lookup_insert_ne in El, Er by done.
  rewrite rebuild_begin in Hbl, Hbr. rewrite rebuild_count in Hcl, Hcr.
  rewrite (set_children_internal_run data this _ _ _ nh ln rn) by done.
  assert (contiguous nh ln rn = false) as ->.
  { cbn in Hinv. rewrite Hvl, Hvr, !andb_true_r in Hinv.
    unfold contiguous. cbn. by rewrite Hbl, Hcl, Hbr, Hcr. }
  rewrite Hd. cbn. eauto.
Qed.

(** X14. A debug build validates what it decodes: [Deserialize], run on the
    encoding of a tree, succeeds if the tree satisfies the contiguity
    conditions everywhere and aborts at an assertion if it violates them
    anywhere. *)
Theorem Deserialize_debug_validates {RT : BoundRoundTrip Bound}
    data t fuel this σ rest n0 :
  debug = true →
  (height t ≤ fuel)%nat →
  heap σ !! this = Some n0 →
  begin_ n0 = BIG_BAD_NUMBER →
  source σ = encode t ++ rest →
  ∃ σ',
    Deserialize fuel data this σ =
    (if valid t then Done tt else Fault AssertionFailed, σ').
Proof.
  intros Hd Hfuel E Hfresh Hsrc. destruct (valid t) eqn:Hv.
  - destruct (Deserialize_encode data t fuel this σ rest n0)
      as (h' & Hrun & _); try done. eauto.
  - by eapply Deserialize_encode_invalid.
Qed.

(** X15. A build without debug assertions validates nothing: [Deserialize]
    accepts the encoding of any tree, contiguous or not, and leaves at
    [this] that very structure with statistics recomputed bottom-up. *)
Theorem Deserialize_release_accepts {RT : BoundRoundTrip Bound}
    data t fuel this σ rest n0 :
  debug = false →
  (height t ≤ fuel)%nat →
  heap σ !! this = Some n0 →
  source σ = encode t ++ rest →
  ∃ σ',
    Deserialize fuel data this σ = (Done tt, σ') ∧
    source σ' = rest ∧
    repr (heap σ') this (rebuild data t).
Proof.
  intros Hd Hfuel E Hsrc.
  destruct (Deserialize_encode data t fuel this σ rest n0)
    as (h' & Hrun & Ht & _); try done; try by rewrite Hd.
  eexists. split; [exact Hrun|]. split; [done|]. by eapply tree_at_repr.
Qed.

(** ** Building bottom-up *)

Lemma repr_frame t : ∀ h h' p,
  (∀ a, a ∈ dom h → h' !! a = h !! a) → repr h p t → repr h' p t.
Proof.
  intros h h' p Hagree Hrepr. eapply tree_at_repr.
  eapply tree_at_frame; [exact Hagree|]. by apply repr_tree_at.
Qed.

(** X16. Bottom-up construction.  A fresh node that is given its range by
    [Init] and then no children is a one-node tree with the statistic of
    its range.  A fresh node that is given its range and then the roots of
    two trees is the root of the tree made of both, with the combined
    statistic, unless this is a debug build and the three contiguity
    conditions fail, in which case the construction aborts: what a debug
    build assembles from valid trees is valid.  No node that existed
    before is changed. *)
Theorem construct_bottom_up data bg ct σ :
  (∃ p σ',
     heap σ !! p = None ∧
     (p <- new_BinarySpaceTree ;;
      Init p bg ct ;;
      set_children data p Null Null ;;
      ret p) σ = (Done p, σ') ∧
     repr (heap σ') p (TLeaf Bound_default bg ct (Statistic_Init data bg ct)) ∧
     (∀ a, a ∈ dom (heap σ) → heap σ' !! a = heap σ !! a)) ∧
  (∀ l r tl tr,
     repr (heap σ) l tl → repr (heap σ) r tr →
     let cont := contiguous_ranges bg ct (t_begin tl) (t_count tl)
                   (t_begin tr) (t_count tr) in
     let t := TNode Bound_default bg ct
                (Statistic_Init_children data bg ct (t_stat tl) (t_stat tr))
                tl tr in
     ∃ p σ',
       heap σ !! p = None ∧
       (p <- new_BinarySpaceTree ;;
        Init p bg ct ;;
        set_children data p (Ref l) (Ref r) ;;
        ret p) σ
       = (if debug && negb cont then Fault AssertionFailed else Done p, σ') ∧
       repr (heap σ') p t ∧
       valid t = cont && valid tl && valid tr ∧
       (∀ a, a ∈ dom (heap σ) → heap σ' !! a = heap σ !! a)).
Proof.
  destruct σ as [h snk src].
  set (p := fresh (dom h)).
  assert (h !! p = None) as Hp by (apply not_elem_of_dom, is_fresh).
  assert (new_BinarySpaceTree (mkState h snk src)
          = (Done p, mkState (<[p := BinarySpaceTree_ctor]> h) snk src))
    as Hnew by reflexivity.
  assert (Init p bg ct (mkState (<[p := BinarySpaceTree_ctor]> h) snk src)
          = (Done tt,
             mkState (<[p := mkNode Bound_default
                               (if debug then Poison else junk_ptr)
                               (if debug then Poison else junk_ptr)
                               bg ct Statistic_default]> h) snk src))
    as HInit.
  { rewrite (Init_run p _ _ _ BinarySpaceTree_ctor)
      by apply lookup_insert_eq.
    assert (debug && negb (begin_ BinarySpaceTree_ctor =? BIG_BAD_NUMBER)
            = false) as ->.
    { destruct debug eqn:Hd; [|done].
      by rewrite (ctor_fresh Hd), Z.eqb_refl. }
    cbn. rewrite insert_insert_eq. by destruct debug. }
  assert (∀ nf a, a ∈ dom h → <[p := nf]> h !! a = h !! a) as Hkeep.
  { intros nf a Ha. apply lookup_insert_ne. intros <-.
    by apply not_elem_of_dom in Hp. }
  split.
  - exists p. eexists. split; [done|]. split_and!.
    + rewrite (bind_done _ _ _ _ _ Hnew), (bind_done _ _ _ _ _ HInit).
      erewrite bind_done; last by
        (apply set_children_leaf_run; apply lookup_insert_eq).
      reflexivity.
    + cbn. rewrite insert_insert_eq. apply lookup_insert_eq.
    + intros a Ha. cbn. rewrite insert_insert_eq. by apply Hkeep.
  - intros l r tl tr Hl Hr cont t. cbn in Hl, Hr.
    destruct (repr_root _ _ _ Hl) as (ln & El & _ & Hbl & Hcl & Hsl & _).
    destruct (repr_root _ _ _ Hr) as (rn & Er & _ & Hbr & Hcr & Hsr & _).
    assert (l ≠ p) as Hlp by (intros ->; congruence).
    assert (r ≠ p) as Hrp by (intros ->; congruence).
    exists p. eexists. split; [done|]. split_and!.
    + rewrite (bind_done _ _ _ _ _ Hnew), (bind_done _ _ _ _ _ HInit).
      cbn [bind].
      erewrite (set_children_internal_run data p l r _ _ ln rn);
        [|apply lookup_insert_eq| by cbn; rewrite lookup_insert_ne
         | by cbn; rewrite lookup_insert_ne|done|done].
      unfold contiguous. cbn [begin_ count_].
      rewrite Hbl, Hcl, Hbr, Hcr. unfold cont, contiguous_ranges.
      match goal with
      | |- context [if ?c then _ else _] => destruct c
      end; cbn; reflexivity.
    + cbn. rewrite insert_insert_eq, Hsl, Hsr. exists l, r.
      split_and!; [apply lookup_insert_eq| |].
      * eapply repr_frame; [|exact Hl]. apply Hkeep.
      * eapply repr_frame; [|exact Hr]. apply Hkeep.
    + reflexivity.
    + intros a Ha. cbn. rewrite insert_insert_eq. by apply Hkeep.
Qed.

(** ** Diagnostic dump *)

Lemma Print_run t : ∀ fuel p σ,
  repr (heap σ) p t →
  (height t ≤ fuel)%nat →
  Print fuel p σ
  = (Done (map (λ bc, print_args bc.1 bc.2) (ranges t)), σ).
Proof.
  induction t as [b bg ct st|b bg ct st l IHl r IHr];
    intros fuel p [h snk src] Hrepr Hfuel;
    (destruct fuel as [|fuel]; [cbn in Hfuel; lia|]);
    cbn in Hrepr, Hfuel; cbn [Print].
  - by run.
  - destruct Hrepr as (pl & pr & E & Hl & Hr). run.
    destruct (repr_root _ _ _ Hl) as (ln & El & _).
    destruct (repr_root _ _ _ Hr) as (rn & Er & _).
    run. rewrite (IHl fuel pl) by (done || lia). run.
    rewrite (IHr fuel pr) by (done || lia). run.
    by rewrite map_app.
Qed.

(** X17. [Print] makes one [printf] per node, the node first, then its left
    subtree, then its right subtree, and changes nothing.  For a valid tree
    over proper ranges the second number printed is the index of the
    node's last point, [begin + count - 1], without wrap-around. *)
Theorem Print_lines t fuel p σ :
  repr (heap σ) p t →
  (height t ≤ fuel)%nat →
  Print fuel p σ
    = (Done (map (λ bc, print_args bc.1 bc.2) (ranges t)), σ) ∧
  (valid t = true → ranged t = true →
   ∀ b c, (b, c) ∈ ranges t → print_args b c = (b, b + c - 1, c)).
Proof.
  intros Hrepr Hfuel. split; [by apply Print_run|].
  intros Hv Hr b c Hin.
  pose proof (ranges_bounds _ _ _ Hv Hr Hin) as Hb.
  pose proof (ranged_root _ Hr) as Hroot.
  unfold print_args. rewrite (index_add_exact b c) by lia.
  by rewrite index_add_exact by lia.
Qed.

End Verification.

(** ** Reloading a tree with another statistic *)

Section Reload.

Context {Bound Dataset Statistic Statistic' : Type}.
Context {BO : BoundOps Bound} {DO : DatasetOps Dataset}.
Context {SO : StatisticOps Dataset Statistic}.
Context {SO' : StatisticOps Dataset Statistic'}.
Context {PF : Platform}.
Context {RT : BoundRoundTrip Bound} {DRT : DatasetRoundTrip Dataset}.

Lemma restat_encode data (t : tree Bound Statistic) :
  encode (restat (SO' := SO') data t) = encode t.
Proof. induction t as [|? ? ? ? l IHl r IHr]; cbn; [done|]. by rewrite IHl, IHr. Qed.

Lemma restat_begin data (t : tree Bound Statistic) :
  t_begin (restat (SO' := SO') data t) = t_begin t.
Proof. by destruct t. Qed.

Lemma restat_count data (t : tree Bound Statistic) :
  t_count (restat (SO' := SO') data t) = t_count t.
Proof. by destruct t. Qed.

Lemma restat_valid data (t : tree Bound Statistic) :
  valid (restat (SO' := SO') data t) = valid t.
Proof.
  induction t as [|? ? ? ? l IHl r IHr]; cbn; [done|].
  by rewrite !restat_begin, !restat_count, IHl, IHr.
Qed.

Lemma restat_height data (t : tree Bound Statistic) :
  height (restat (SO' := SO') data t) = height t.
Proof. induction t as [|? ? ? ? l IHl r IHr]; cbn; [done|]. by rewrite IHl, IHr. Qed.

Lemma restat_rebuild data (t : tree Bound Statistic) :
  rebuild data (restat (SO' := SO') data t) = restat data t.
Proof. induction t as [|? ? ? ? l IHl r IHr]; cbn; [done|]. by rewrite IHl, IHr. Qed.

(** X18. "We want to be able to deserialize this class with another
    statistic".  What [SerializeAll] writes for a valid tree with
    statistics of one type, [DeserializeAll] instantiated with another
    statistic type accepts: the tag is the same, the dataset comes back,
    and the tree decoded has the bounds, ranges and children of the
    original and the other type's statistics, computed bottom-up. *)
Theorem reload_with_other_statistic data (t : tree Bound Statistic)
    fuel root this (σ : State Bound Statistic)
    (σ2 : State Bound Statistic') n0 rest :
  repr (heap σ) root t →
  valid t = true →
  (height t ≤ fuel)%nat →
  heap σ2 !! this = Some n0 →
  (debug = true → begin_ n0 = BIG_BAD_NUMBER) →
  ∃ out σ1 σ2',
    SerializeAll fuel data root σ = (Done tt, σ1) ∧
    sink σ1 = sink σ ++ out ∧
    DeserializeAll (SO := SO') fuel this (set_source (out ++ rest) σ2)
      = (Done data, σ2') ∧
    source σ2' = rest ∧
    repr (heap σ2') this (restat (SO' := SO') data t).
Proof.
  intros Hrepr Hvalid Hfuel E Hfresh.
  destruct σ as [h snk src], σ2 as [h2 snk2 src2]. cbn in E.
  set (out := [IMagic spacetree_magic] ++ Dataset_Serialize data ++ encode t).
  destruct (Deserialize_encode data (restat (SO' := SO') data t) fuel this
              (mkState h2 snk2 (encode t ++ rest)) rest n0)
    as (h' & Hrun & Ht & _); try done.
  { by rewrite restat_height. }
  { by rewrite restat_valid. }
  { cbn. by rewrite restat_encode. }
  cbn in Hrun, Ht. rewrite restat_rebuild in Ht.
  exists out, (mkState h (snk ++ out) src), (mkState h' snk2 rest).
  split_and!; try done.
  - unfold SerializeAll. cbn. rewrite (Serialize_run t) by done. cbn.
    unfold out. by rewrite <- !app_assoc.
  - unfold DeserializeAll, out. cbn. rewrite Z.eqb_refl. cbn.
    rewrite <- app_assoc, dataset_round_trip. cbn. by rewrite Hrun.
  - by eapply tree_at_repr.
Qed.

End Reload.

(** * The example tree, checked

    The theorems above at the concrete instantiation: the specification's
    eight-point tree, and the inputs at which a stated property fails. *)

Import Sample.

Global Instance Interval_round_trip : BoundRoundTrip Interval.
Proof. intros [lo hi] rest. reflexivity. Qed.

Ltac solve_repr := cbn; repeat first [eexists | split | reflexivity].

Section DebugBuild.

Local Existing Instance debug_build.

Lemma repr_heap8 : repr heap8 1 tree8.
Proof. solve_repr. Defined.

Lemma repr_heap3 : repr heap3 1 tree3.
Proof. solve_repr. Defined.

(** The example of the specification: [FindByBeginCount(2, 2)] from the
    root returns the node labelled [(2, 2)], which lives at address 5. *)
Example FindByBeginCount_spec_example :
  FindByBeginCount (PF := debug_build) 4 1 2 2 (state_of heap8)
  = (Done (Ref 5), state_of heap8).
Proof. reflexivity. Qed.

(** The statistic at the root is the combination of the children's, down to
    the leaves: the recomputed tree is the tree itself. *)
Example rebuild_spec_example : rebuild points tree8 = tree8.
Proof. reflexivity. Qed.

Lemma FindByBeginCount_self_witness :
  FindByBeginCount_const (PF := debug_build) 1 5 2 2 (state_of heap8)
    = (Done (Ref 5), state_of heap8) ∧
  FindByBeginCount (PF := debug_build) 1 5 2 2 (state_of heap8)
    = (Done (Ref 5), state_of heap8).
Proof.
  apply (FindByBeginCount_self (PF := debug_build) 0 5 (state_of heap8)
           (inner 10 11 2 2)).
  reflexivity.
Defined.

Lemma FindByBeginCount_sound_witness :
  state_of heap8 = state_of heap8 ∧
  ∃ q n, Ref 5 = Ref q ∧ heap (state_of heap8) !! q = Some n ∧
         begin_ n = 2 ∧ count_ n = 2.
Proof.
  apply (FindByBeginCount_sound (PF := debug_build) 4 1 2 2
           (state_of heap8) (Ref 5) (state_of heap8)).
  - right. reflexivity.
  - discriminate.
Defined.

(** C2 as stated fails in a debug build: on the valid tree
    [root(0,8) → (0,4), (4,4)] the query [(1, 6)] satisfies the
    precondition at the root and matches no node, yet the descent reaches
    the left leaf, whose count is 4, and aborts there. *)
Lemma FindByBeginCount_absent_counterexample :
  ¬ (∀ (PF : Platform) (t : tree Interval Z) fuel p begin_q count_q σ n,
       repr (heap σ) p t → valid t = true →
       heap σ !! p = Some n →
       begin_q >= begin_ n → count_q <= count_ n →
       (begin_q, count_q) ∉ ranges t →
       (height t ≤ fuel)%nat →
       FindByBeginCount_const fuel p begin_q count_q σ = (Done Null, σ)).
Proof.
  intros Hclaim.
  specialize (Hclaim debug_build tree3 2%nat 1%positive 1 6 (state_of heap3)
                (inner 2 3 0 8) repr_heap3 eq_refl eq_refl).
  assert (FindByBeginCount_const (PF := debug_build) 2 1 1 6 (state_of heap3)
          = (Fault AssertionFailed, state_of heap3)) as Hrun by reflexivity.
  rewrite Hrun in Hclaim. discriminate Hclaim.
  - cbn. lia.
  - cbn. lia.
  - cbn. intros Hin. repeat (apply elem_of_cons in Hin as [[=]|Hin]).
    by apply elem_of_nil in Hin.
  - cbn. lia.
Qed.

(** A debug build round trip of the small tree into a fresh node at
    address 20. *)
Lemma Serialize_Deserialize_round_trip_witness :
  ∃ out σ1 σ2,
    Serialize 2 1
      (state_of (<[20%positive := BinarySpaceTree_ctor (PF := debug_build)]>
                   heap3)) = (Done tt, σ1) ∧
    sink σ1 = [] ++ out ∧
    Deserialize (PF := debug_build) 2 points 20 (set_source (out ++ []) σ1)
      = (Done tt, σ2) ∧
    source σ2 = [] ∧
    repr (heap σ2) 20 (rebuild points tree3) ∧
    same_structure (rebuild points tree3) tree3 ∧
    (∀ t', same_structure tree3 t' → rebuild points t' = rebuild points tree3) ∧
    (∀ a : addr,
       a ∈ dom (<[20%positive := BinarySpaceTree_ctor (PF := debug_build)]>
                  heap3) →
       a ≠ 20%positive →
       heap σ2 !! a
       = <[20%positive := BinarySpaceTree_ctor (PF := debug_build)]> heap3
           !! a).
Proof.
  refine (Serialize_Deserialize_round_trip (PF := debug_build) points tree3 2
            1 20
            (state_of (<[20%positive := BinarySpaceTree_ctor (PF := debug_build)]>
                         heap3))
            (BinarySpaceTree_ctor (PF := debug_build)) [] _ _ _ _ _).
  - solve_repr.
  - reflexivity.
  - cbn. lia.
  - reflexivity.
  - reflexivity.
Defined.

Lemma set_children_statistic_witness :
  set_children (PF := debug_build) points 1 (Ref 2) (Ref 3) (state_of heap3)
  = (Done tt, state_of heap3) ∧
  set_children (PF := debug_build) points 2 Null Null (state_of heap3)
  = (Done tt, state_of heap3).
Proof.
  split.
  - rewrite (proj1 (set_children_statistic (PF := debug_build) points 1
                      (state_of heap3) (inner 2 3 0 8) eq_refl)
               2%positive 3%positive
               (mkNode (0, 4) Null Null 0 4 (range_sum points 0 4))
               (mkNode (4, 8) Null Null 4 4 (range_sum points 4 4))
               eq_refl eq_refl);
      [reflexivity | discriminate | discriminate].
  - rewrite (proj2 (set_children_statistic (PF := debug_build) points 2
                      (state_of heap3)
                      (mkNode (0, 4) Null Null 0 4 (range_sum points 0 4))
                      eq_refl)).
    reflexivity.
Defined.

Lemma contract_violations_witness :
  Init (PF := debug_build) 1 0 8 (state_of heap3)
    = (Fault AssertionFailed, state_of heap3) ∧
  Deserialize (PF := debug_build) 1 points 1 (state_of heap3)
    = (Fault AssertionFailed, state_of heap3) ∧
  fst (set_children (PF := debug_build) points 1 Null (Ref 3) (state_of heap3))
    = Done tt.
Proof.
  destruct (contract_violations (PF := debug_build) points 1 (state_of heap3)
              (inner 2 3 0 8) eq_refl) as (HInit & HDes & Hleft).
  split_and!.
  - apply HInit; [reflexivity | discriminate].
  - apply HDes; [reflexivity | discriminate].
  - by rewrite Hleft.
Defined.

(** C5 as stated fails: in a debug build [set_children] with a null left
    and a non-null right pointer raises nothing and leaves a node with
    exactly one child. *)
Lemma contract_violations_counterexample :
  ∃ σ' n',
    set_children (PF := debug_build) points 1 Null (Ref 3) (state_of heap3)
      = (Done tt, σ') ∧
    heap σ' !! 1%positive = Some n' ∧
    present (left_ n') = false ∧ present (right_ n') = true.
Proof. eexists _, _. split_and!; reflexivity. Qed.

Lemma DeserializeAll_checks_tag_witness :
  DeserializeAll (PF := debug_build) 2 1
    (mkState heap3 [] [IMagic 28; IInt 8])
  = (Fault MagicMismatch, mkState heap3 [] [IInt 8]).
Proof.
  apply (DeserializeAll_checks_tag (PF := debug_build) 2 1
           (mkState heap3 [] [IMagic 28; IInt 8]) 28 [IInt 8] eq_refl).
  discriminate.
Defined.

Lemma is_leaf_children_witness :
  (is_leaf (inner 10 11 2 2) = true
   ↔ left_ (inner 10 11 2 2) = Null ∧ right_ (inner 10 11 2 2) = Null) ∧
  present (left_ (inner 10 11 2 2)) = present (right_ (inner 10 11 2 2)).
Proof.
  refine (proj1 (proj2 (is_leaf_children (PF := debug_build) (Dataset := Points)))
            heap8 1%positive tree8 5%positive (inner 10 11 2 2)
            repr_heap8 _ eq_refl).
  eapply reach_left; [reflexivity | reflexivity |].
  eapply reach_right; [reflexivity | reflexivity |].
  apply reach_here.
Defined.

(** C8 as stated fails: built by the construction operations alone, the
    node [p] ends up with a null left and a non-null right pointer, and
    [is_leaf] calls it a leaf. *)
Lemma is_leaf_children_counterexample :
  ∃ p σ' n',
    (p <- new_BinarySpaceTree (PF := debug_build) ;;
     Init p 0 8 ;;
     r <- new_BinarySpaceTree ;;
     Init r 4 4 ;;
     set_children points r Null Null ;;
     set_children points p Null (Ref r) ;;
     ret p) (state_of ∅) = (Done p, σ') ∧
    heap σ' !! p = Some n' ∧
    is_leaf n' = true ∧
    present (left_ n') = false ∧ present (right_ n') = true.
Proof. eexists _, _, _. split_and!; reflexivity. Qed.

Lemma Init_frame_witness :
  ∃ σ' n',
    Init (PF := debug_build) 20 0 8
      (state_of (<[20%positive := BinarySpaceTree_ctor (PF := debug_build)]>
                   heap3)) = (Done tt, σ') ∧
    heap σ' !! 20%positive = Some n' ∧
    begin_ n' = 0 ∧ count_ n' = 8 ∧
    bound_ n' = (0, 0) ∧ stat_ n' = 0 ∧
    left_ n' = Poison ∧ right_ n' = Poison ∧
    (∀ q : addr, q ≠ 20%positive →
       heap σ' !! q
       = <[20%positive := BinarySpaceTree_ctor (PF := debug_build)]> heap3
           !! q) ∧
    sink σ' = [] ∧ source σ' = [].
Proof.
  refine (Init_frame (PF := debug_build) 20 0 8
            (state_of (<[20%positive := BinarySpaceTree_ctor (PF := debug_build)]>
                         heap3))
            (BinarySpaceTree_ctor (PF := debug_build)) _ _).
  - reflexivity.
  - reflexivity.
Defined.

(** C10 as stated fails in a debug build: a node that was made a leaf
    before [Init] has null child pointers, and [Init] overwrites both with
    the poison pattern. *)
Lemma Init_frame_counterexample :
  ∃ p σ1 σ2 n1 n2,
    (p <- new_BinarySpaceTree (PF := debug_build) ;;
     set_children points p Null Null ;;
     ret p) (state_of ∅) = (Done p, σ1) ∧
    Init (PF := debug_build) p 0 8 σ1 = (Done tt, σ2) ∧
    heap σ1 !! p = Some n1 ∧ heap σ2 !! p = Some n2 ∧
    left_ n1 = Null ∧ left_ n2 = Poison ∧
    right_ n1 = Null ∧ right_ n2 = Poison.
Proof. eexists _, _, _, _, _. split_and!; reflexivity. Qed.

End DebugBuild.

Section ReleaseBuild.

Local Existing Instance release_build.

Lemma FindByBeginCount_absent_witness :
  FindByBeginCount_const (PF := release_build) 4 1 1 2 (state_of heap8)
    = (Done Null, state_of heap8) ∧
  FindByBeginCount (PF := release_build) 4 1 1 2 (state_of heap8)
    = (Done Null, state_of heap8) ∧
  ∃ lf, last (descent tree8 1) = Some lf ∧ t_is_leaf lf = true.
Proof.
  apply (FindByBeginCount_absent (PF := release_build) tree8 4 1 1 2
           (state_of heap8)).
  - exact repr_heap8.
  - cbn. intros Hin. repeat (apply elem_of_cons in Hin as [[=]|Hin]).
    by apply elem_of_nil in Hin.
  - cbn. lia.
Defined.

Lemma Serialize_stream_witness :
  sink (snd (Serialize 2 1 (state_of heap3)))
    = [IInt 0; IInt 8; IInt 0; IInt 8; IBool true;
       IInt 0; IInt 4; IInt 0; IInt 4; IBool false;
       IInt 4; IInt 8; IInt 4; IInt 4; IBool false] ∧
  sink (snd (SerializeAll (PF := release_build) 2 points 1 (state_of heap3)))
    = IMagic 27 :: IInt 8 :: map IInt points
        ++ [IInt 0; IInt 8; IInt 0; IInt 8; IBool true;
            IInt 0; IInt 4; IInt 0; IInt 4; IBool false;
            IInt 4; IInt 8; IInt 4; IInt 4; IBool false].
Proof.
  destruct (Serialize_stream (PF := release_build) tree3 2 points 1
              (state_of heap3) repr_heap3 (le_n 2)) as (HS & HA & _).
  rewrite HS, HA. split; reflexivity.
Defined.

End ReleaseBuild.

(** * The further properties, checked on the example *)

Lemma get_points_map (d : Points) (rest : list item) :
  get_points (length d) (map IInt d ++ rest) = Some (d, rest).
Proof. induction d as [|x d IH]; cbn; [done|]. by rewrite IH. Qed.

Global Instance Points_round_trip : DatasetRoundTrip Points.
Proof.
  intros d rest. cbn. unfold Points_Deserialize.
  rewrite Nat2Z.id. apply get_points_map.
Qed.

Ltac solve_owns :=
  cbn; repeat first [eexists | split | reflexivity | set_solver].

Ltac solve_not_in :=
  cbn; let Hin := fresh in
  intros Hin; repeat (apply elem_of_cons in Hin as [[=]|Hin]);
  by apply elem_of_nil in Hin.

Section DebugBuildFurther.

Local Existing Instance debug_build.

Lemma reach_heap8_11 : reach heap8 1 11.
Proof.
  eapply reach_left; [reflexivity | reflexivity |].
  eapply reach_right; [reflexivity | reflexivity |].
  eapply reach_right; [reflexivity | reflexivity |].
  apply reach_here.
Defined.

Lemma FindByBeginCount_readonly_witness :
  state_of heap3 = state_of heap3.
Proof.
  apply (FindByBeginCount_readonly (PF := debug_build) 2 1 1 6
           (state_of heap3) (Fault AssertionFailed) (state_of heap3)).
  left. reflexivity.
Defined.

Lemma FindByBeginCount_in_subtree_witness : reach heap8 1 5.
Proof.
  apply (FindByBeginCount_in_subtree (PF := debug_build) 4 1 2 2
           (state_of heap8) 5 (state_of heap8)).
  left. reflexivity.
Defined.

Lemma FindByBeginCount_precondition_witness :
  FindByBeginCount_const (PF := debug_build) 1 3 1 6 (state_of heap3)
    = (Fault AssertionFailed, state_of heap3) ∧
  FindByBeginCount (PF := debug_build) 1 3 1 6 (state_of heap3)
    = (Fault AssertionFailed, state_of heap3).
Proof.
  apply (FindByBeginCount_precondition (PF := debug_build) 0 3 1 6
           (state_of heap3)
           (mkNode (4, 8) Null Null 4 4 (range_sum points 4 4))).
  - reflexivity.
  - reflexivity.
  - left. cbn. lia.
Defined.

Lemma Serialize_only_appends_witness :
  heap (snd (Serialize 1 1 (state_of heap3))) = heap3 ∧
  source (snd (Serialize 1 1 (state_of heap3))) = [] ∧
  ∃ out, sink (snd (Serialize 1 1 (state_of heap3))) = [] ++ out.
Proof.
  apply (Serialize_only_appends 1 1 (state_of heap3)
           (fst (Serialize 1 1 (state_of heap3)))
           (snd (Serialize 1 1 (state_of heap3)))).
  reflexivity.
Defined.

Lemma ranges_unique_witness : NoDup (ranges tree8).
Proof. apply (ranges_unique tree8); reflexivity. Defined.

Lemma FindByBeginCount_finds_witness :
  FindByBeginCount_const (PF := debug_build) 4 1 3 1 (state_of heap8)
    = (Done (Ref 11), state_of heap8) ∧
  FindByBeginCount (PF := debug_build) 4 1 3 1 (state_of heap8)
    = (Done (Ref 11), state_of heap8).
Proof.
  apply (FindByBeginCount_finds (PF := debug_build) tree8 4 1 11 (leaf 3)
           (state_of heap8)).
  - exact repr_heap8.
  - reflexivity.
  - reflexivity.
  - exact reach_heap8_11.
  - reflexivity.
  - cbn. lia.
Defined.

Lemma set_children_tiles_witness :
  ∃ n', heap (snd (set_children (PF := debug_build) points 1 (Ref 2) (Ref 3)
                     (state_of heap3))) !! 1%positive = Some n' ∧
        heap (snd (set_children (PF := debug_build) points 1 (Ref 2) (Ref 3)
                     (state_of heap3))) !! 2%positive
          = Some (mkNode (0, 4) Null Null 0 4 (range_sum points 0 4)) ∧
        heap (snd (set_children (PF := debug_build) points 1 (Ref 2) (Ref 3)
                     (state_of heap3))) !! 3%positive
          = Some (mkNode (4, 8) Null Null 4 4 (range_sum points 4 4)) ∧
        left n' = Ref 2 ∧ right n' = Ref 3 ∧
        0 = begin n' ∧ 4 = 4 ∧ 8 = end_ n'.
Proof.
  refine (set_children_tiles (PF := debug_build) points 1 2 3
            (state_of heap3) _ (inner 2 3 0 8)
            (mkNode (0, 4) Null Null 0 4 (range_sum points 0 4))
            (mkNode (4, 8) Null Null 4 4 (range_sum points 4 4))
            _ _ _ _ _ _ _); try reflexivity; discriminate.
Defined.

Lemma FindByBeginCount_skips_empty_left_witness :
  FindByBeginCount_const (PF := debug_build) 2 1 0 0 (state_of heap_empty_left)
    = FindByBeginCount_const (PF := debug_build) 1 3 0 0
        (state_of heap_empty_left) ∧
  FindByBeginCount (PF := debug_build) 2 1 0 0 (state_of heap_empty_left)
    = FindByBeginCount (PF := debug_build) 1 3 0 0 (state_of heap_empty_left).
Proof.
  apply (FindByBeginCount_skips_empty_left (PF := debug_build) 1 1 2 3
           (state_of heap_empty_left) (inner 2 3 0 4)
           (mkNode (0, 0) Null Null 0 0 0)
           (mkNode (0, 4) Null Null 0 4 (range_sum points 0 4)) 0 0);
    try reflexivity; cbn; try lia.
  discriminate.
Defined.

(** The empty left child, at address 2, is not what a lookup of its range
    returns. *)
Example empty_left_child_not_found :
  FindByBeginCount (PF := debug_build) 2 1 0 0 (state_of heap_empty_left)
  = (Done Null, state_of heap_empty_left).
Proof. reflexivity. Qed.

Lemma delete_releases_tree_witness :
  ∃ h',
    delete_BinarySpaceTree (PF := debug_build) 2 (Ref 1) (state_of heap3)
      = (Done tt, mkState h' [] []) ∧
    (∀ a : addr, a ∈ ({[1%positive]} ∪ {[2%positive]} ∪ {[3%positive]}
                       : gset addr) → h' !! a = None) ∧
    (∀ a : addr, a ∉ ({[1%positive]} ∪ {[2%positive]} ∪ {[3%positive]}
                       : gset addr) → h' !! a = heap3 !! a).
Proof.
  refine (delete_releases_tree (PF := debug_build) tree3 2 1
            ({[1%positive]} ∪ {[2%positive]} ∪ {[3%positive]})
            (state_of heap3) _ _).
  - solve_owns.
  - cbn. lia.
Defined.

Lemma dtor_before_set_children_witness :
  ∃ σ',
    (p <- new_BinarySpaceTree (PF := debug_build) ;;
     Init p 0 8 ;;
     BinarySpaceTree_dtor 1 p) (state_of ∅) = (Fault UndefinedBehaviour, σ').
Proof.
  apply (dtor_before_set_children (PF := debug_build) (Dataset := Points)
           0 0 8 (state_of ∅)).
  reflexivity.
Defined.

Lemma dtor_keeps_right_child_witness :
  ∃ σ',
    (set_children (PF := debug_build) points 1 Null (Ref 3) ;;
     BinarySpaceTree_dtor 1 1) (state_of heap3) = (Done tt, σ') ∧
    heap σ' !! 3%positive
      = Some (mkNode (4, 8) Null Null 4 4 (range_sum points 4 4)) ∧
    (∀ a : addr, a ≠ 1%positive → heap σ' !! a = heap3 !! a).
Proof.
  refine (dtor_keeps_right_child (PF := debug_build) points 0 1 3
            (state_of heap3) (inner 2 3 0 8)
            (mkNode (4, 8) Null Null 4 4 (range_sum points 4 4)) _ _ _);
    [reflexivity | reflexivity | discriminate].
Defined.

Lemma dtor_shared_child_witness :
  ∃ σ',
    BinarySpaceTree_dtor (PF := debug_build) 2 1 (state_of heap_shared)
    = (Fault UndefinedBehaviour, σ').
Proof.
  apply (dtor_shared_child (PF := debug_build) 0 1 2 (state_of heap_shared)
           (mkNode (0, 0) (Ref 2) (Ref 2) 0 0 0)
           (mkNode (0, 0) Null Null 0 0 0));
    try reflexivity.
  discriminate.
Defined.

(** In a debug build [set_children] accepts the same empty leaf as both
    children: the three assertions hold. *)
Example set_children_accepts_shared_child :
  fst (set_children (PF := debug_build) points 1 (Ref 2) (Ref 2)
         (state_of heap_shared)) = Done tt.
Proof. reflexivity. Qed.

Lemma Deserialize_then_destroy_witness :
  ∃ σ'',
    BinarySpaceTree_dtor (PF := debug_build) 2 20
      (snd (Deserialize (PF := debug_build) 2 points 20
              (mkState (<[20%positive := BinarySpaceTree_ctor]> heap3) []
                 (encode tree3))))
    = (Done tt, σ'') ∧
    dom (heap σ'') = dom (<[20%positive := BinarySpaceTree_ctor]> heap3) ∧
    (∀ a : addr, a ≠ 20%positive →
       heap σ'' !! a = <[20%positive := BinarySpaceTree_ctor]> heap3 !! a).
Proof.
  refine (Deserialize_then_destroy (PF := debug_build) points 2 20
            (mkState (<[20%positive := BinarySpaceTree_ctor]> heap3) []
               (encode tree3)) _ _).
  reflexivity.
Defined.

Lemma Deserialize_debug_validates_witness :
  ∃ σ',
    Deserialize (PF := debug_build) 2 points 20
      (mkState (<[20%positive := BinarySpaceTree_ctor]> heap3) []
         (encode tree_gap))
    = (Fault AssertionFailed, σ').
Proof.
  refine (Deserialize_debug_validates (PF := debug_build) points tree_gap 2 20
            (mkState (<[20%positive := BinarySpaceTree_ctor]> heap3) []
               (encode tree_gap)) [] BinarySpaceTree_ctor _ _ _ _ _).
  - reflexivity.
  - cbn. lia.
  - reflexivity.
  - reflexivity.
  - cbn. reflexivity.
Defined.

Lemma construct_bottom_up_witness :
  ∃ p σ',
    heap3 !! p = None ∧
    (p <- new_BinarySpaceTree (PF := debug_build) ;;
     Init p 0 8 ;;
     set_children points p (Ref 2) (Ref 3) ;;
     ret p) (state_of heap3) = (Done p, σ') ∧
    repr (heap σ') p
      (TNode (0, 0) 0 8 (range_sum points 0 8)
         (TLeaf (0, 4) 0 4 (range_sum points 0 4))
         (TLeaf (4, 8) 4 4 (range_sum points 4 4))) ∧
    true = true ∧
    (∀ a : addr, a ∈ dom heap3 → heap σ' !! a = heap3 !! a).
Proof.
  refine (proj2 (construct_bottom_up (PF := debug_build) points 0 8
                   (state_of heap3))
            2%positive 3%positive
            (TLeaf (0, 4) 0 4 (range_sum points 0 4))
            (TLeaf (4, 8) 4 4 (range_sum points 4 4)) _ _);
    reflexivity.
Defined.

Lemma Print_lines_witness :
  Print 2 1 (state_of heap3)
    = (Done [(0, 7, 8); (0, 3, 4); (4, 7, 4)], state_of heap3) ∧
  (valid tree3 = true → ranged tree3 = true →
   ∀ b c, (b, c) ∈ ranges tree3 → print_args b c = (b, b + c - 1, c)).
Proof.
  refine (Print_lines tree3 2 1 (state_of heap3) _ _).
  - exact repr_heap3.
  - cbn. lia.
Defined.

Lemma reload_with_other_statistic_witness :
  ∃ out σ1 σ2',
    SerializeAll (PF := debug_build) 2 points 1 (state_of heap3)
      = (Done tt, σ1) ∧
    sink σ1 = [] ++ out ∧
    DeserializeAll (PF := debug_build) (SO := Empty_ops) 2 20
      (set_source (out ++ [])
         (mkState {[20%positive := BinarySpaceTree_ctor (SO := Empty_ops)]}
            [] []))
      = (Done points, σ2') ∧
    source σ2' = [] ∧
    repr (heap σ2') 20 (restat (SO' := Empty_ops) points tree3).
Proof.
  refine (reload_with_other_statistic (PF := debug_build) (SO' := Empty_ops)
            points tree3 2 1 20 (state_of heap3)
            (mkState {[20%positive := BinarySpaceTree_ctor (SO := Empty_ops)]}
               [] [])
            (BinarySpaceTree_ctor (SO := Empty_ops)) [] _ _ _ _ _).
  - exact repr_heap3.
  - reflexivity.
  - cbn. lia.
  - reflexivity.
  - reflexivity.
Defined.

Lemma SerializeAll_DeserializeAll_round_trip_witness :
  ∃ out σ1 σ2,
    SerializeAll (PF := debug_build) 2 points 1
      (state_of (<[20%positive := BinarySpaceTree_ctor]> heap3))
      = (Done tt, σ1) ∧
    sink σ1 = [] ++ out ∧
    DeserializeAll (PF := debug_build) 2 20 (set_source (out ++ []) σ1)
      = (Done points, σ2) ∧
    source σ2 = [] ∧
    repr (heap σ2) 20 (rebuild points tree3).
Proof.
  refine (SerializeAll_DeserializeAll_round_trip (PF := debug_build)
            points tree3 2 1 20
            (state_of (<[20%positive := BinarySpaceTree_ctor]> heap3))
            BinarySpaceTree_ctor [] _ _ _ _ _).
  - solve_repr.
  - reflexivity.
  - cbn. lia.
  - reflexivity.
  - reflexivity.
Defined.

End DebugBuildFurther.

Section ReleaseBuildFurther.

Local Existing Instance release_build.

Lemma Deserialize_release_accepts_witness :
  ∃ σ',
    Deserialize (PF := release_build) 2 points 20
      (mkState (<[20%positive := BinarySpaceTree_ctor]> heap3) []
         (encode tree_gap))
    = (Done tt, σ') ∧
    source σ' = [] ∧
    repr (heap σ') 20 (rebuild points tree_gap).
Proof.
  refine (Deserialize_release_accepts (PF := release_build) points tree_gap
            2 20
            (mkState (<[20%positive := BinarySpaceTree_ctor]> heap3) []
               (encode tree_gap)) [] BinarySpaceTree_ctor _ _ _ _).
  - reflexivity.
  - cbn. lia.
  - reflexivity.
  - cbn. reflexivity.
Defined.

End ReleaseBuildFurther.
